(* ===== verification/_CoqProject ===== *)
-Q . S2P
Prelude.v
Direction.v
Grid.v
State.v
Food.v
Engine.v
Abstract.v
Session.v
Kernel.v
Start.v
Screen.v
