(* ===== verification/Prelude.v ===== *)
(** * A verification development for snake_game_rust

    The repository is a bare-metal snake game for a VGA text screen, in two
    source files.

    - [src/src/lib.rs] is the game engine.  [GameState] holds the snake as a
      fixed array of [MAX_SNAKE_LENGTH = 25 * 80 / (2 * 2) = 500] pairs of
      [u16] coordinates (head at index 0), the active [length], the
      [direction], the [food] cell and the [score].  Its methods are [new],
      [update_direction], [update] (one tick), [is_snake_on_position],
      [spawn_food], [draw_snake] and [key].  [Direction::opposite] is a pure
      helper.
    - [src/src/main.rs] is the kernel entry point [_start].  It builds the
      state, spawns the first food and zeroes a raw 32000-byte buffer.  It
      then loops forever: it drains the pending key slot [LAST_KEY], draws
      the food into the buffer and calls [draw_snake].

    [update] calls [spawn_food], which calls [is_snake_on_position]; the
    kernel calls [key], [spawn_food] and [draw_snake].  Nothing calls
    [update] or [update_direction].

    ** Files, in dependency order

    - [Prelude] (this file) holds the shared machinery.  [outcome] is the
      result of a Rust computation ([Ret], [Panic msg], [Diverge]), with
      stdpp's [x ← m; k] monad notation.  [u16] and [usize] arithmetic is
      kept at its width: [wrapping_add] and [wrapping_sub] (notations [+%]
      and [-%] in [rust_scope]), and [checked_add], the [+] of a debug build.
      Slice access is [index] / [index_set], with their bounds panics.  It
      also has [rotate_right], the [range] of a [for] loop, the hint
      databases [snake] and [snake_rw], and the tactics [outcome_simpl] and
      [concrete].
    - [Direction] holds the enum, [opposite], and stdpp [EqDecision] and
      [Finite] instances.
    - [Grid] holds the constants and the cell type [pos = Z * Z].
      [move_head] is the [match] at lines 92-97 of [update].  [hits_wall] is
      line 102.  [signed_move] is the same move without wrap-around.
    - [State] holds the record [GameState.t] with its setters, [new],
      [update_direction], [is_snake_on_position], [key], [active] (the
      first [length] cells) and [wf_state].  It also declares the interface
      [FoodSpawner], the engine's view of [spawn_food]: it only moves the
      food, to a grid cell off the whole array, and it does not panic from a
      food in the grid.
    - [Food] holds [spawn_food_impl]: [next_candidate], then the [while]
      loop [probe], run with fuel.  It also has the probe sequence [orbit]
      and the instance [food_spawner].
    - [Engine] holds [update], written against [FoodSpawner], and the
      self-collision loop [check_self_collision].
    - [Abstract] holds the spec's engine as a relation [advance] over the
      active segments (Running / Over, food placed anywhere off the snake),
      the abstraction [abs], and the refinement proof, in a Section whose
      Hypotheses are the bounds a tick needs.
    - [Session] holds the boot of [_start] ([boot]), the step relation
      [step] of the engine's API, [reachable], and the invariant
      [session_inv], proved by rule induction.
    - [Kernel] holds [draw_snake] as plot events, and the food drawing with
      its slice checks ([copy_from_slice], [food_indices], [write_pixels],
      [draw_food]).  It also has one loop iteration [loop_body], and [run]
      over interleavings of iterations with key interrupts ([kevent]).
      [TEXT_BYTES], [text_cell] and [plot_cell] are the addressing of the
      VGA text memory that [plot] writes.
    - [Start] holds [_start] itself as an interaction tree
      ([itree startE void]).  Its events are [Load] and [Store] of
      [LAST_KEY], [PlotE], [ClearScreen] and [Abort] (a panic).  The loop
      is [ITree.iter loop_step] over the game and the buffer.  The handler
      [h_irq] gives the slot its meaning, with the spec's interrupt
      context as a schedule of stores before each access.  [startup] is
      its [clear_screen] event.
    - [Screen] holds the memory at [0xb8000] that the food block and the
      VGA library's [plot] both write: [plot_mem] (the character, then
      [ColorCode::new(fg, bg)]), [plot_all_mem] for [draw_snake], one
      iteration over the shared memory [loop_body_shared], and [frames]
      for [n] iterations.

    ** What the theorems show

    The manifest lists them as claims, by their full names.
    - The game as shipped can never score
      ([Session.reachable_never_eats]).  The head starts at (12, 40) and
      moves by 2, so it only visits even cells; the food is placed at
      (1, 1) and never moves.
    - One tick on every branch.  A wall hit ends the game
      ([Engine.update_wall]).  A move shifts the active segments, or ends
      the game on a self collision ([Engine.update_move]).  Eating grows
      the snake by one and moves the food to a free cell
      ([Engine.update_eat]).  A full snake that eats panics with an index
      error ([Engine.update_capacity_panic]).  A reversal into the neck
      ends the game ([Engine.reverse_into_neck]).  Eating at
      [usize::MAX] panics with an add overflow
      ([Engine.update_eat_overflow]).
    - Refinement ([Abstract.update_refines]).  Every tick that returns is
      an [advance] step of the spec's machine, and every panic is a
      ["Game Over!"] where the machine goes to [Over].  This holds for any
      spawner that meets the interface.  Over sessions, every reachable
      state abstracts to a state the spec's machine reaches from the
      boot state by ticks and turns ([Session.session_refines]).
    - [spawn_food] returns the first free cell of its diagonal sequence
      ([spawn_food_first_free]).  Its loop exits exactly when that
      sequence has a free cell ([spawn_food_terminates]).  It keeps
      [row - col] mod 5 ([spawn_food_diagonal]).  It panics on a
      [u16::MAX] food ([spawn_food_overflow]).
    - Reachable states, by rule induction on [Session.reachable].
      [spawn_food] returns (2, 2), or (3, 3) when (2, 2) is an array cell,
      at once ([reachable_spawn_food]).  Lengths, the array and the food
      stay in bounds ([reachable_bounds]).  Ticks with no key press end
      the game within the number of blocks between the head and the wall
      ahead ([game_ends_without_input]), by induction on that distance
      ([Grid.wall_distance]).
    - The kernel loop never changes the game, whatever keys arrive
      ([Kernel.kernel_never_advances]).  Drawing the food panics exactly
      on the last 20 cells of row 24 ([draw_food_bounds]).  [draw_snake]
      plots only on-screen cells ([draw_snake_on_screen]).
    - The wrap-then-compare wall test is the signed bounds test
      ([Grid.wrap_check_equiv]).
    - [_start] as written.  Under every interrupt schedule, the empty one
      of the code included, it never panics and plots the boot snake
      forever ([Start.start_plots_forever]).  The food block lands in text cells at 8
      times the food's cell, and past the end of the text memory for
      every cell from (3, 10) on ([Kernel.food_misplaced]).
    - The screen the code produces, with the food block and [plot] on one
      memory.  An iteration shows every active segment as a light-green
      ['*'], writes only food-pixel and snake bytes, and leaves the food's
      own cell alone ([Screen.shared_frame]).  From [start], the food's
      colour never appears and its cell stays blank, forever
      ([Screen.screen_never_shows_food]).  The only error path of
      [draw_snake] is [plot]'s index on an off-screen segment
      ([Screen.draw_snake_plot_panics]).

    ** Fuel and bounds

    - The fuel of [probe] is [PROBE_PERIOD = 400 = lcm 25 80], the period
      of the probe sequence [orbit].  The lemma [Food.probe_fuel_enough]
      proves that any larger fuel gives the same outcome on a candidate of
      the sequence,
      and every candidate the code tries is one.  So [Diverge] is exactly
      a [while] loop that never exits.
    - Coordinates are [Z] kept in [0, 2^16), and the wrap is written out.
      [length] and [score] are [Z] in [0, 2^64), added with the overflow
      check of a debug build.
    - The byte offsets of [main.rs] are [usize] products of values below
      [2^16 * 80 * 16] and cannot overflow, so they are plain [Z].
    - [Start] needs no fuel: [_start] is an infinite tree, and its
      theorems compare trees up to [eutt], proved by coinduction through
      the library's [eutt_iter'].

    ** Not modelled, and why

    - The VGA driver of [pluggable_interrupt_os] ([plot], [clear_screen])
      and the keyboard decoder of [pc_keyboard] are libraries the sources
      only call.  [plot] and [clear_screen] are events, [DecodedKey]
      keeps the constructors the code matches on, and of the text memory
      only its addressing (2 bytes per cell, 80 cells per row) is
      modelled.
    - No interrupt handler is in the code ([HandlerTable] is imported and
      never used).  The interrupt that writes [LAST_KEY] is the spec's
      (section 5): [kstep]'s [KeyPress] and [h_irq]'s schedule.
    - The raw pointer [0xb8000] is modelled as the list of bytes it
      exposes.
    - [render_buffer] is commented out, so it is not part of the program.

    ** What is left

    - The drain [load] then [store(None)] is not one atomic hand-off,
      but no handler of the code stores into [LAST_KEY], so the key it
      would lose cannot arise yet; a theorem about it waits for a handler.
    - The screen over the interpreted [_start] tree: it would need the
      slice writes of the food block as events on the shared memory.
    - [render_buffer] and the libraries, for the reasons above. *)

From stdpp Require Export base list sets strings.
From Stdlib Require Export ZArith Lia.

(** * Outcomes of Rust computations *)

Inductive outcome (A : Type) : Type :=
| Ret (a : A)
| Panic (msg : string)
| Diverge.
Arguments Ret {A} a.
Arguments Panic {A} msg.
Arguments Diverge {A}.

#[export] Instance outcome_ret : MRet outcome := fun _ a => Ret a.
#[export] Instance outcome_bind : MBind outcome :=
  fun A B (k : A -> outcome B) (m : outcome A) =>
    match m with
    | Ret a => k a
    | Panic msg => Panic msg
    | Diverge => Diverge
    end.

Definition panic_game_over {A} : outcome A := Panic "Game Over!".
Definition panic_index {A} : outcome A := Panic "index out of bounds".
Definition panic_add_overflow {A} : outcome A := Panic "attempt to add with overflow".

Lemma bind_ret {A B} (a : A) (k : A -> outcome B) : (x ← Ret a; k x) = k a.
Proof. reflexivity. Qed.

Lemma bind_ret_inv {A B} (m : outcome A) (k : A -> outcome B) (b : B) :
  (x ← m; k x) = Ret b -> exists a, m = Ret a /\ k a = Ret b.
Proof. destruct m; simpl; [eauto | discriminate | discriminate]. Qed.

Lemma bind_panic_inv {A B} (m : outcome A) (k : A -> outcome B) msg :
  (x ← m; k x) = Panic msg -> m = Panic msg \/ exists a, m = Ret a /\ k a = Panic msg.
Proof. destruct m; simpl; [eauto | intros [= ->]; auto | discriminate]. Qed.

(** * Machine integers *)

Declare Scope rust_scope.
Delimit Scope rust_scope with rust.
Local Open Scope Z_scope.

Definition U16_MOD : Z := 2 ^ 16.
Definition USIZE_MOD : Z := 2 ^ 64.

Definition u16_ok (x : Z) : Prop := 0 <= x < U16_MOD.
Definition usize_ok (x : Z) : Prop := 0 <= x < USIZE_MOD.

(** [u16::wrapping_add] and [u16::wrapping_sub]. *)
Definition wrapping_add (x y : Z) : Z := (x + y) mod U16_MOD.
Definition wrapping_sub (x y : Z) : Z := (x - y) mod U16_MOD.

Notation "x +% y" := (wrapping_add x y) (at level 50, left associativity) : rust_scope.
Notation "x -% y" := (wrapping_sub x y) (at level 50, left associativity) : rust_scope.

(** The [+] of a debug build: panics when the result leaves the type. *)
Definition checked_add (modulus x y : Z) : outcome Z :=
  if x + y <? modulus then Ret (x + y) else panic_add_overflow.

Definition u16_add (x y : Z) : outcome Z := checked_add U16_MOD x y.
Definition usize_add (x y : Z) : outcome Z := checked_add USIZE_MOD x y.

Lemma wrapping_add_ok x y : u16_ok (x +% y)%rust.
Proof. unfold u16_ok, wrapping_add, U16_MOD. apply Z.mod_pos_bound. lia. Qed.

Lemma wrapping_sub_ok x y : u16_ok (x -% y)%rust.
Proof. unfold u16_ok, wrapping_sub, U16_MOD. apply Z.mod_pos_bound. lia. Qed.

Lemma wrapping_add_small x y : 0 <= x -> 0 <= y -> x + y < U16_MOD -> (x +% y)%rust = x + y.
Proof. intros. unfold wrapping_add. apply Z.mod_small. lia. Qed.

Lemma wrapping_sub_small x y : y <= x < U16_MOD -> 0 <= y -> (x -% y)%rust = x - y.
Proof. intros. unfold wrapping_sub. apply Z.mod_small. lia. Qed.

(** Going below zero wraps to the top of the range. *)
Lemma wrapping_sub_wraps x y : 0 <= x < y -> y <= U16_MOD -> (x -% y)%rust = U16_MOD + x - y.
Proof.
  intros. unfold wrapping_sub.
  rewrite <- (Z.mod_add (x - y) 1 U16_MOD) by (unfold U16_MOD; lia).
  replace (U16_MOD + x - y) with (x - y + 1 * U16_MOD) by lia.
  apply Z.mod_small. lia.
Qed.

(** Reducing modulo an even number keeps parity. *)
Lemma even_mod_even m x : m <> 0 -> Z.even m = true -> Z.even (x mod m) = Z.even x.
Proof.
  intros Hm He. rewrite (Z.div_mod x m) at 2 by done.
  rewrite Z.even_add, Z.even_mul, He. simpl. by destruct (Z.even (x mod m)).
Qed.

(** The modulus is even, so wrapping keeps parity. *)
Lemma even_mod_u16 x : Z.even (x mod U16_MOD) = Z.even x.
Proof. apply even_mod_even; unfold U16_MOD; [lia | reflexivity]. Qed.

Lemma checked_add_ret m x y : x + y < m -> checked_add m x y = Ret (x + y).
Proof. intros. unfold checked_add. destruct (Z.ltb_spec (x + y) m); [reflexivity | lia]. Qed.

Lemma checked_add_panic m x y : m <= x + y -> checked_add m x y = panic_add_overflow.
Proof. intros. unfold checked_add. destruct (Z.ltb_spec (x + y) m); [lia | reflexivity]. Qed.

Lemma checked_add_inv m x y z : checked_add m x y = Ret z -> z = x + y /\ x + y < m.
Proof. unfold checked_add. destruct (Z.ltb_spec (x + y) m); [intros [= <-]; lia | discriminate]. Qed.

(** * Slices: indexing with a bounds check *)

Section Slices.
Context {A : Type}.

(** [a[i]]: a read that panics out of range. *)
Definition index (a : list A) (i : Z) : outcome A :=
  if (0 <=? i) && (i <? Z.of_nat (length a)) then
    match a !! Z.to_nat i with Some x => Ret x | None => panic_index end
  else panic_index.

(** [a[i] = x]: a write that panics out of range. *)
Definition index_set (a : list A) (i : Z) (x : A) : outcome (list A) :=
  if (0 <=? i) && (i <? Z.of_nat (length a)) then Ret (<[Z.to_nat i := x]> a)
  else panic_index.

(** [a.rotate_right(k)]: panics when [k > a.len()]. *)
Definition rotate_right (k : nat) (a : list A) : outcome (list A) :=
  if decide (k <= length a)%nat then
    Ret (drop (length a - k) a ++ take (length a - k) a)
  else Panic "assertion failed: k <= self.len()".

Lemma index_lookup (a : list A) (i : nat) x : a !! i = Some x -> index a (Z.of_nat i) = Ret x.
Proof.
  intros Hx. pose proof (lookup_lt_Some _ _ _ Hx).
  unfold index. rewrite Nat2Z.id, Hx.
  destruct (Z.leb_spec 0 (Z.of_nat i)), (Z.ltb_spec (Z.of_nat i) (Z.of_nat (length a)));
    simpl; [reflexivity | lia ..].
Qed.

Lemma index_Ret (a : list A) i x :
  index a i = Ret x -> 0 <= i /\ a !! Z.to_nat i = Some x.
Proof.
  unfold index. destruct (Z.leb_spec 0 i), (Z.ltb_spec i (Z.of_nat (length a))); simpl;
    try discriminate.
  destruct (a !! Z.to_nat i); [intros [= ->]; auto | discriminate].
Qed.

Lemma index_out (a : list A) i : (length a <= Z.to_nat i)%nat \/ i < 0 -> index a i = panic_index.
Proof.
  intros Hi. unfold index.
  destruct (Z.leb_spec 0 i), (Z.ltb_spec i (Z.of_nat (length a))); simpl; try reflexivity. lia.
Qed.

Lemma index_set_Ret (a : list A) i x :
  0 <= i -> i < Z.of_nat (length a) -> index_set a i x = Ret (<[Z.to_nat i := x]> a).
Proof.
  intros. unfold index_set.
  destruct (Z.leb_spec 0 i), (Z.ltb_spec i (Z.of_nat (length a))); simpl; [reflexivity | lia ..].
Qed.

Lemma rotate_right_1 (a : list A) x : rotate_right 1 (a ++ [x]) = Ret (x :: a).
Proof.
  unfold rotate_right. rewrite length_app. simpl.
  rewrite decide_True by lia. replace (length a + 1 - 1)%nat with (length a) by lia.
  rewrite drop_app_length, take_app_length. reflexivity.
Qed.

(** [a.rotate_right(1); a[0] = h]: the array shifts one slot towards
    its end, the last cell is dropped and [h] is the new first cell. *)
Lemma rotate_right_1_set {B} (a : list A) h (k : list A -> outcome B) :
  a <> [] ->
  (a' ← rotate_right 1 a; a'' ← index_set a' 0 h; k a'') = k (h :: removelast a).
Proof.
  intros Ha. destruct a as [|d a']; [done |].
  rewrite (app_removelast_last d Ha), rotate_right_1, removelast_last. reflexivity.
Qed.

Lemma length_removelast (a : list A) : length (removelast a) = (length a - 1)%nat.
Proof. rewrite removelast_firstn_len, length_take. lia. Qed.

Lemma Forall_removelast (P : A -> Prop) (a : list A) : Forall P a -> Forall P (removelast a).
Proof. rewrite removelast_firstn_len. apply Forall_take. Qed.

Lemma rotate_right_length k (a b : list A) : rotate_right k a = Ret b -> length b = length a.
Proof.
  unfold rotate_right. case_decide; [intros [= <-] | discriminate].
  rewrite length_app, length_drop, length_take. lia.
Qed.
End Slices.

(** The indices [lo, lo+1, ..., hi-1] of [for i in lo..hi]. *)
Definition range (lo hi : Z) : list Z := map Z.of_nat (seq (Z.to_nat lo) (Z.to_nat (hi - lo))).

Lemma elem_of_range lo hi i : 0 <= lo -> i ∈ range lo hi <-> lo <= i < hi.
Proof.
  intros Hlo. unfold range. rewrite list_elem_of_fmap. split.
  - intros (n & -> & Hn). apply list_elem_of_In, in_seq in Hn. lia.
  - intros Hi. exists (Z.to_nat i). split; [lia |]. apply list_elem_of_In, in_seq. lia.
Qed.

(** * Automation shared by the components *)

Create HintDb snake discriminated.
Create Rewrite HintDb snake_rw.
#[export] Hint Resolve wrapping_add_ok wrapping_sub_ok : snake.
#[export] Hint Resolve index_lookup rotate_right_1 : snake.

(** Discharge a hypothesis of a theorem at a concrete input by evaluation. *)
Ltac concrete :=
  first [ reflexivity
        | apply (bool_decide_unpack _); vm_compute; reflexivity
        | vm_compute; first [ reflexivity | congruence | lia ] ].

(** Simplify binds of known outcomes and invert binds that returned. *)
Ltac outcome_simpl :=
  repeat match goal with
  | H : (_ ← Ret _; _) = _ |- _ => rewrite bind_ret in H
  | |- context [ _ ← Ret _; _ ] => rewrite bind_ret
  | H : (_ ← ?m; _) = Ret _ |- _ =>
      let a := fresh "a" in let Hm := fresh "Hm" in
      apply bind_ret_inv in H as (a & Hm & H)
  | H : Ret _ = Ret _ |- _ => injection H as H
  end.
