(* ===== verification/Direction.v ===== *)
(** * The [Direction] enum of [src/src/lib.rs]

    The four directions the snake can move in and the pure helper
    [Direction::opposite].  Decidable equality and finiteness are stdpp
    instances, so [decide] and [set_solver] can case on directions. *)

From S2P Require Import Prelude.
From stdpp Require Import finite.

Inductive Direction : Type :=
| Up
| Down
| Left
| Right.

(** [Direction::opposite]. *)
Definition opposite (d : Direction) : Direction :=
  match d with
  | Up => Down
  | Down => Up
  | Left => Right
  | Right => Left
  end.

#[export] Instance Direction_eq_dec : EqDecision Direction.
Proof. solve_decision. Defined.

#[export] Program Instance Direction_finite : Finite Direction :=
  {| enum := [Up; Down; Left; Right] |}.
Next Obligation. apply (bool_decide_unpack _). by vm_compute. Qed.
Next Obligation. intros []; set_solver. Qed.

Lemma opposite_involutive d : opposite (opposite d) = d.
Proof. by destruct d. Qed.

Lemma opposite_neq d : opposite d <> d.
Proof. by destruct d. Qed.

#[export] Hint Resolve opposite_neq : snake.
#[export] Hint Rewrite opposite_involutive : snake_rw.
