(* ===== verification/Grid.v ===== *)
(** * The grid of [src/src/lib.rs]: constants, cells, one move of the head

    The constants [ROWS], [COLS], [BLOCK_SIZE], [MAX_SNAKE_LENGTH] (lines
    27-30), a cell as the [(u16, u16)] pair [(row, col)], the head movement
    of [GameState::update] (the [match self.direction] of lines 92-97, with
    [u16::wrapping_sub] and [u16::wrapping_add]) and its wall test (line
    102).  The theorems show that the wrap-then-compare idiom of the code is
    the same as moving in signed arithmetic and testing both edges, and
    give the distance to the wall in the direction of travel, which the
    liveness theorem of [Session] counts down. *)

From S2P Require Import Prelude Direction.

Local Open Scope Z_scope.
Local Open Scope rust_scope.

Definition ROWS : Z := 25.
Definition COLS : Z := 80.
Definition BLOCK_SIZE : Z := 2.
Definition MAX_SNAKE_LENGTH : Z := ROWS * COLS / (BLOCK_SIZE * BLOCK_SIZE).

Lemma MAX_SNAKE_LENGTH_eq : MAX_SNAKE_LENGTH = 500.
Proof. reflexivity. Qed.

(** A cell [(row, col)] of two [u16]. *)
Abbreviation pos := (Z * Z)%type.

Definition pos_ok (p : pos) : Prop := u16_ok p.1 /\ u16_ok p.2.

Definition in_grid (p : pos) : Prop := (0 <= p.1 < ROWS) /\ (0 <= p.2 < COLS).

#[export] Instance pos_ok_dec p : Decision (pos_ok p).
Proof. unfold pos_ok, u16_ok. apply _. Defined.

#[export] Instance in_grid_dec p : Decision (in_grid p).
Proof. unfold in_grid. apply _. Defined.

(** The new head of [update]: one block in the current direction, with
    wrap-around on [u16]. *)
Definition move_head (direction : Direction) (head : pos) : pos :=
  let new_head := head in
  match direction with
  | Up => (new_head.1 -% BLOCK_SIZE, new_head.2)
  | Down => (new_head.1 +% BLOCK_SIZE, new_head.2)
  | Left => (new_head.1, new_head.2 -% BLOCK_SIZE)
  | Right => (new_head.1, new_head.2 +% BLOCK_SIZE)
  end.

(** [new_head.0 >= ROWS as u16 || new_head.1 >= COLS as u16]. *)
Definition hits_wall (new_head : pos) : bool :=
  (ROWS <=? new_head.1) || (COLS <=? new_head.2).

(** The same move in signed arithmetic, which never wraps: the reading of
    the move the spec's design notes ask to be made explicit. *)
Definition signed_move (direction : Direction) (head : pos) : pos :=
  match direction with
  | Up => (head.1 - BLOCK_SIZE, head.2)
  | Down => (head.1 + BLOCK_SIZE, head.2)
  | Left => (head.1, head.2 - BLOCK_SIZE)
  | Right => (head.1, head.2 + BLOCK_SIZE)
  end.

(** How many moves in [direction] the head at [head] still has before the
    wall test of [update] catches it, the catching move included. *)
Definition wall_distance (direction : Direction) (head : pos) : Z :=
  match direction with
  | Up => head.1 / BLOCK_SIZE + 1
  | Down => (ROWS - head.1 + 1) / BLOCK_SIZE
  | Left => head.2 / BLOCK_SIZE + 1
  | Right => (COLS - head.2 + 1) / BLOCK_SIZE
  end.

(** Both coordinates even: the cells the head can reach from the centre. *)
Definition even_cell (p : pos) : bool := Z.even p.1 && Z.even p.2.

(** * Lemmas on one move *)

Lemma in_grid_pos_ok p : in_grid p -> pos_ok p.
Proof. unfold in_grid, pos_ok, u16_ok, ROWS, COLS, U16_MOD. simpl. lia. Qed.

Lemma hits_wall_false p : hits_wall p = false <-> p.1 < ROWS /\ p.2 < COLS.
Proof.
  unfold hits_wall. rewrite orb_false_iff, !Z.leb_gt. tauto.
Qed.

Lemma hits_wall_false_in_grid p : pos_ok p -> hits_wall p = false -> in_grid p.
Proof. unfold pos_ok, u16_ok, in_grid. rewrite hits_wall_false. lia. Qed.

Lemma move_head_ok d p : pos_ok p -> pos_ok (move_head d p).
Proof. intros [? ?]. destruct d; split; simpl; auto with snake. Qed.

(** A coordinate of the grid moved by one block: the wrapped value is the
    signed one when that is in range, and at least [U16_MOD - BLOCK_SIZE]
    (far outside the grid) when it went below zero. *)
Lemma wrapping_sub_block x :
  0 <= x < U16_MOD ->
  (BLOCK_SIZE <= x /\ x -% BLOCK_SIZE = x - BLOCK_SIZE) \/
  (x < BLOCK_SIZE /\ U16_MOD - BLOCK_SIZE <= x -% BLOCK_SIZE).
Proof.
  intros Hx. unfold BLOCK_SIZE in *. destruct (Z.le_gt_cases 2 x).
  - left. split; [lia |]. apply wrapping_sub_small; unfold U16_MOD in *; lia.
  - right. split; [lia |]. rewrite wrapping_sub_wraps; unfold U16_MOD in *; lia.
Qed.

Lemma wrapping_add_block x : 0 <= x < ROWS \/ 0 <= x < COLS -> x +% BLOCK_SIZE = x + BLOCK_SIZE.
Proof. intros. apply wrapping_add_small; unfold BLOCK_SIZE, U16_MOD, ROWS, COLS in *; lia. Qed.

(** The wrap-then-bound-check of [update] catches exactly the moves that
    leave the grid on any of its four sides, and a move that stays inside
    is the signed move. *)
Lemma move_head_in_grid d p :
  in_grid p ->
  (hits_wall (move_head d p) = false <-> in_grid (signed_move d p)) /\
  (in_grid (signed_move d p) -> move_head d p = signed_move d p).
Proof.
  unfold in_grid. intros Hp. rewrite hits_wall_false.
  assert (0 <= p.1 < U16_MOD /\ 0 <= p.2 < U16_MOD) as [H1 H2]
    by (unfold ROWS, COLS, U16_MOD in *; lia).
  destruct d; simpl.
  - destruct (wrapping_sub_block _ H1) as [[? ->] | [? ?]];
      unfold ROWS, COLS, BLOCK_SIZE, U16_MOD in *; split; [lia | intros; f_equal; lia | lia | lia].
  - rewrite wrapping_add_block by lia. unfold ROWS, COLS, BLOCK_SIZE in *; split; [lia | auto].
  - destruct (wrapping_sub_block _ H2) as [[? ->] | [? ?]];
      unfold ROWS, COLS, BLOCK_SIZE, U16_MOD in *; split; [lia | intros; f_equal; lia | lia | lia].
  - rewrite wrapping_add_block by lia. unfold ROWS, COLS, BLOCK_SIZE in *; split; [lia | auto].
Qed.

(** A head in the grid has at least one move left, and a move that passes
    the wall test stays in the grid with one move fewer. *)
Lemma wall_distance_pos d p : in_grid p -> 1 <= wall_distance d p.
Proof.
  destruct p as [r c]. unfold in_grid, wall_distance, ROWS, COLS, BLOCK_SIZE. cbn [fst snd].
  intros [Hr Hc]. destruct d; [| | |]; Z.div_mod_to_equations; lia.
Qed.

Lemma wall_distance_step d p :
  in_grid p -> hits_wall (move_head d p) = false ->
  in_grid (move_head d p) /\ wall_distance d (move_head d p) + 1 = wall_distance d p.
Proof.
  intros Hp Hw. destruct (move_head_in_grid d p Hp) as [Hiff Heq].
  pose proof (proj1 Hiff Hw) as Hin. rewrite (Heq Hin). split; [done |].
  destruct p as [r c]. unfold in_grid, wall_distance, signed_move, ROWS, COLS, BLOCK_SIZE in *.
  cbn [fst snd] in *. destruct d; cbn [fst snd] in *; Z.div_mod_to_equations; lia.
Qed.


(** C18: the wall test of [update] on the wrapped [u16] head is the
    negation of "the signed move stays in the grid", for every direction
    and every head in the grid: the wrap-then-bound-check idiom catches
    moves off the top and left edges as well as off the bottom and right
    ones, and a move that passes the test is the signed move. *)
Theorem wrap_check_equiv d p :
  in_grid p ->
  hits_wall (move_head d p) = negb (bool_decide (in_grid (signed_move d p))) /\
  (hits_wall (move_head d p) = false -> move_head d p = signed_move d p).
Proof.
  intros Hp. destruct (move_head_in_grid d p Hp) as [Hiff Heq].
  split; [| intros Hw; by apply Heq, Hiff].
  case_bool_decide as Hin; simpl.
  - by apply Hiff.
  - destruct (hits_wall (move_head d p)) eqn:Hw; [done |]. exfalso. apply Hin, Hiff. reflexivity.
Qed.

Lemma wrap_check_equiv_witness :
  in_grid (0, 40) /\ hits_wall (move_head Up (0, 40)) = negb (bool_decide (in_grid (signed_move Up (0, 40)))).
Proof.
  assert (H : in_grid (0, 40)) by (unfold in_grid, ROWS, COLS; simpl; lia).
  split; [exact H | exact (proj1 (wrap_check_equiv Up (0, 40) H))].
Defined.

Lemma wrapping_add_sub_cancel x : 0 <= x < U16_MOD -> (x +% BLOCK_SIZE) -% BLOCK_SIZE = x.
Proof.
  intros. unfold wrapping_add, wrapping_sub.
  rewrite Zminus_mod_idemp_l. replace (x + BLOCK_SIZE - BLOCK_SIZE) with x by lia.
  by apply Z.mod_small.
Qed.

Lemma wrapping_sub_add_cancel x : 0 <= x < U16_MOD -> (x -% BLOCK_SIZE) +% BLOCK_SIZE = x.
Proof.
  intros. unfold wrapping_add, wrapping_sub.
  rewrite Zplus_mod_idemp_l. replace (x - BLOCK_SIZE + BLOCK_SIZE) with x by lia.
  by apply Z.mod_small.
Qed.

(** Moving back in the opposite direction undoes a move, wrap-around
    included. *)
Lemma move_head_opposite d p : pos_ok p -> move_head (opposite d) (move_head d p) = p.
Proof.
  destruct p as [r c]. intros [Hr Hc]. unfold u16_ok in *.
  destruct d; simpl; rewrite ?wrapping_add_sub_cancel, ?wrapping_sub_add_cancel by done; reflexivity.
Qed.

Lemma move_head_even d p : even_cell p = true -> even_cell (move_head d p) = true.
Proof.
  destruct p as [r c]. unfold even_cell. simpl. intros [H1 H2]%andb_prop.
  destruct d; simpl; unfold wrapping_add, wrapping_sub;
    rewrite ?even_mod_u16, ?Z.even_add, ?Z.even_sub, ?H1, ?H2; reflexivity.
Qed.

#[export] Hint Resolve move_head_ok move_head_even in_grid_pos_ok : snake.

