(* ===== verification/State.v ===== *)
(** * The state of [GameState] in [src/src/lib.rs]

    The [GameState] struct (lines 58-68) as the record [GameState.t], the
    constructor [GameState::new] (lines 71-82), [update_direction] (lines
    84-86), the occupancy query [is_snake_on_position] (lines 122-129) and
    the restart hook [key] (lines 173-178).  The keyboard type
    [pc_keyboard::DecodedKey] is a library type: it keeps the constructors
    the code matches on.

    The engine calls [spawn_food] through the interface [FoodSpawner]: what
    the engine needs from it is that it only moves the food, and moves it to
    a cell of the grid that no entry of the snake array occupies, and that
    it does not panic when the current food is a cell of the grid.  [Food]
    gives the instance; [Engine] is proved against the interface. *)

From S2P Require Import Prelude Direction Grid.
From Stdlib Require Import Ascii.

Local Open Scope Z_scope.

Module GameState.
Record t : Type := mk {
  snake : list pos;        (** [[(u16, u16); MAX_SNAKE_LENGTH]] *)
  length : Z;              (** [usize] *)
  direction : Direction;
  food : pos;              (** [(u16, u16)] *)
  score : Z                (** [usize] *)
}.

Definition set_snake (a : list pos) (st : t) : t :=
  mk a (length st) (direction st) (food st) (score st).
Definition set_length (n : Z) (st : t) : t :=
  mk (snake st) n (direction st) (food st) (score st).
Definition set_direction (d : Direction) (st : t) : t :=
  mk (snake st) (length st) d (food st) (score st).
Definition set_food (p : pos) (st : t) : t :=
  mk (snake st) (length st) (direction st) p (score st).
Definition set_score (n : Z) (st : t) : t :=
  mk (snake st) (length st) (direction st) (food st) n.
End GameState.

Import GameState.

(** [GameState::new]: the head at the centre, the other 499 cells at
    [(0, 0)], [length] 10. *)
Definition new : GameState.t :=
  let snake := replicate (Z.to_nat MAX_SNAKE_LENGTH) ((0, 0) : pos) in
  let snake := <[0%nat := (ROWS / 2, COLS / 2)]> snake in
  {| snake := snake;
     length := 10;
     direction := Right;
     food := (0, 0);
     score := 0 |}.

(** [GameState::update_direction]: no check against reversal. *)
Definition update_direction (st : GameState.t) (d : Direction) : GameState.t :=
  set_direction d st.

(** [is_snake_on_position]: a scan of the whole array, the [length] active
    cells and the stale ones after them alike. *)
Definition is_snake_on_position (st : GameState.t) (position : pos) : bool :=
  existsb (fun '(row, col) => (row =? position.1) && (col =? position.2)) (snake st).

(** The part of [pc_keyboard]'s key types the code and the spec mention. *)
Inductive KeyCode : Type :=
| KeyR
| ArrowUp
| ArrowDown
| ArrowLeft
| ArrowRight
| OtherKey (scancode : nat).

Inductive DecodedKey : Type :=
| RawKey (k : KeyCode)
| Unicode (c : Ascii.ascii).

(** [GameState::key]: both arms of the match are empty. *)
Definition key (st : GameState.t) (k : DecodedKey) : GameState.t :=
  match k with
  | RawKey KeyR => st
  | Unicode "r"%char => st
  | _ => st
  end.

(** The active segments: indices [0 .. length) of the array. *)
Definition active (st : GameState.t) : list pos := take (Z.to_nat (length st)) (snake st).

(** The shape every state of the game keeps: a full array of [u16] cells,
    [length] and [score] within [usize]. *)
Definition wf_state (st : GameState.t) : Prop :=
  Z.of_nat (base.length (snake st)) = MAX_SNAKE_LENGTH /\
  Forall pos_ok (snake st) /\ pos_ok (food st) /\
  usize_ok (length st) /\ usize_ok (score st).

(** * The interface the engine calls the food spawner through *)

Class FoodSpawner : Type := {
  spawn_food : GameState.t -> outcome (GameState.t * pos);
  spawn_food_spec st st' p :
    spawn_food st = Ret (st', p) ->
    st' = set_food p st /\ is_snake_on_position st p = false /\ in_grid p;
  spawn_food_no_panic st msg : in_grid (food st) -> spawn_food st <> Panic msg
}.

(** * Lemmas on the state *)

Lemma is_snake_on_position_spec st p : is_snake_on_position st p = true <-> p ∈ snake st.
Proof.
  unfold is_snake_on_position. rewrite existsb_exists, list_elem_of_In.
  split.
  - intros ([r c] & Hin & Heq). apply andb_prop in Heq as [?%Z.eqb_eq ?%Z.eqb_eq].
    destruct p; simpl in *; subst; auto.
  - intros Hin. exists p. destruct p. rewrite !Z.eqb_refl. auto.
Qed.

Lemma is_snake_on_position_false st p : is_snake_on_position st p = false <-> p ∉ snake st.
Proof. rewrite <- is_snake_on_position_spec. destruct (is_snake_on_position st p); intuition congruence. Qed.

Lemma active_subseteq st p : p ∈ active st -> p ∈ snake st.
Proof. unfold active. apply subseteq_take. Qed.

Lemma wf_new : wf_state new.
Proof.
  split; [reflexivity |]. split; [apply (bool_decide_unpack _); by vm_compute |].
  unfold pos_ok, u16_ok, usize_ok, U16_MOD, USIZE_MOD. simpl. lia.
Qed.

Lemma wf_set_food st p : wf_state st -> pos_ok p -> wf_state (set_food p st).
Proof. unfold wf_state; simpl; tauto. Qed.

Lemma wf_set_direction st d : wf_state st -> wf_state (set_direction d st).
Proof. unfold wf_state; simpl; tauto. Qed.

(** [key] is a no-op on every key, the restart key ['r'] / [R] included. *)
Lemma key_noop st k : key st k = st.
Proof.
  destruct k as [kc | [b0 b1 b2 b3 b4 b5 b6 b7]];
    [destruct kc | destruct b0, b1, b2, b3, b4, b5, b6, b7]; reflexivity.
Qed.

#[export] Hint Resolve wf_set_food wf_set_direction active_subseteq : snake.
