(* ===== verification/Food.v ===== *)
(** * [GameState::spawn_food] of [src/src/lib.rs] (lines 137-150)

    The new food is searched by a linear probe that adds one to the row
    (mod [ROWS]) and one to the column (mod [COLS]) at each step, starting
    from the cell after the current food, until a cell that no entry of the
    snake array occupies is found.  The additions are [u16] additions of a
    debug build (a panic on overflow).

    The [while] loop is run with [PROBE_PERIOD = 400] iterations of fuel.
    Its candidates are the cells [orbit food k]; that sequence has period
    [400 = lcm ROWS COLS], so [probe_fuel_enough] shows that any larger fuel
    gives the same outcome: [Diverge] is exactly a loop that never exits.
    The theorems characterise when the loop exits ([spawn_food_terminates]),
    what it returns
    ([spawn_food_first_free]), which cells it can ever return
    ([spawn_food_diagonal]) and its overflow panic ([spawn_food_overflow]).
    [food_spawner] is the instance of the engine's [FoodSpawner] interface. *)

From S2P Require Import Prelude Direction Grid State.

Local Open Scope Z_scope.
Import GameState.

(** One step of the probe: [((p.0 + 1) % ROWS as u16, (p.1 + 1) % COLS as u16)]. *)
Definition next_candidate (p : pos) : outcome pos :=
  row ← u16_add p.1 1;
  col ← u16_add p.2 1;
  Ret (row mod ROWS, col mod COLS).

(** [while self.is_snake_on_position(new_food) { new_food = ... }] with fuel. *)
Fixpoint probe (fuel : nat) (st : GameState.t) (new_food : pos) : outcome pos :=
  match fuel with
  | O => Diverge
  | S fuel' =>
      if is_snake_on_position st new_food then
        new_food ← next_candidate new_food;
        probe fuel' st new_food
      else Ret new_food
  end.

Definition PROBE_PERIOD : nat := 400.

(** [spawn_food]: the first candidate, the loop, the store of [self.food],
    and the returned position. *)
Definition spawn_food_impl (st : GameState.t) : outcome (GameState.t * pos) :=
  new_food ← next_candidate (food st);
  new_food ← probe PROBE_PERIOD st new_food;
  Ret (set_food new_food st, new_food).

(** The [k]-th cell of the probe sequence started at [f]. *)
Definition orbit (f : pos) (k : nat) : pos :=
  ((f.1 + Z.of_nat k) mod ROWS, (f.2 + Z.of_nat k) mod COLS).

Definition occupied (st : GameState.t) (p : pos) : Prop := is_snake_on_position st p = true.

(** * The probe sequence *)

Lemma orbit_in_grid f k : in_grid (orbit f k).
Proof.
  unfold orbit, in_grid, ROWS, COLS; simpl.
  split; apply Z.mod_pos_bound; lia.
Qed.

Lemma next_candidate_orbit f k : next_candidate (orbit f k) = Ret (orbit f (S k)).
Proof.
  pose proof (orbit_in_grid f k) as [Hr Hc].
  unfold next_candidate, u16_add.
  rewrite !checked_add_ret by (unfold ROWS, COLS, U16_MOD in *; lia). simpl.
  unfold orbit. simpl. rewrite Nat2Z.inj_succ.
  rewrite !Zplus_mod_idemp_l. do 3 f_equal; lia.
Qed.

Lemma next_candidate_first (f : pos) :
  f.1 + 1 < U16_MOD -> f.2 + 1 < U16_MOD -> next_candidate f = Ret (orbit f 1).
Proof.
  intros. unfold next_candidate, u16_add. rewrite !checked_add_ret by lia. reflexivity.
Qed.

Lemma next_candidate_Ret (f q : pos) :
  next_candidate f = Ret q -> f.1 + 1 < U16_MOD /\ f.2 + 1 < U16_MOD /\ q = orbit f 1.
Proof.
  unfold next_candidate, u16_add. intros H.
  apply bind_ret_inv in H as (r & Hr%checked_add_inv & H).
  apply bind_ret_inv in H as (c & Hc%checked_add_inv & [= <-]).
  destruct Hr as [-> ?], Hc as [-> ?]. auto.
Qed.

Lemma orbit_period f k : orbit f (k + PROBE_PERIOD) = orbit f k.
Proof.
  unfold orbit, PROBE_PERIOD. rewrite Nat2Z.inj_add.
  replace (f.1 + (Z.of_nat k + Z.of_nat 400)) with (f.1 + Z.of_nat k + 16 * ROWS) by (unfold ROWS; lia).
  replace (f.2 + (Z.of_nat k + Z.of_nat 400)) with (f.2 + Z.of_nat k + 5 * COLS) by (unfold COLS; lia).
  rewrite !Z.mod_add by (unfold ROWS, COLS; lia). reflexivity.
Qed.

Lemma orbit_mod f k : orbit f k = orbit f (k mod PROBE_PERIOD).
Proof.
  induction k as [k IH] using lt_wf_ind.
  destruct (decide (k < PROBE_PERIOD)%nat).
  - by rewrite Nat.mod_small.
  - replace k with ((k - PROBE_PERIOD) + PROBE_PERIOD)%nat at 1 by lia.
    rewrite orbit_period, IH by (unfold PROBE_PERIOD in *; lia).
    f_equal. rewrite <- (Nat.Div0.mod_add (k - PROBE_PERIOD) 1).
    f_equal. lia.
Qed.

Lemma probe_orbit_step n st f k :
  probe (S n) st (orbit f k) =
  if is_snake_on_position st (orbit f k) then probe n st (orbit f (S k)) else Ret (orbit f k).
Proof. simpl. by rewrite next_candidate_orbit. Qed.

(** What the probe does along the orbit: it returns the first free cell
    within its fuel, or runs out of fuel when every cell it tried is
    occupied.  It never panics there. *)
Lemma probe_orbit_spec n st f k :
  (exists i, (i < n)%nat /\ is_snake_on_position st (orbit f (k + i)) = false /\
     (forall j, (j < i)%nat -> occupied st (orbit f (k + j))) /\
     probe n st (orbit f k) = Ret (orbit f (k + i))) \/
  ((forall j, (j < n)%nat -> occupied st (orbit f (k + j))) /\ probe n st (orbit f k) = Diverge).
Proof.
  revert k. induction n as [|n IH]; intros k.
  - right. split; [intros; lia | reflexivity].
  - rewrite probe_orbit_step.
    destruct (is_snake_on_position st (orbit f k)) eqn:Hk.
    + destruct (IH (S k)) as [(i & Hi & Hfree & Hocc & ->) | (Hocc & ->)].
      * left. exists (S i). rewrite Nat.add_succ_r. repeat split; [lia | done |].
        intros [|j] ?; [by rewrite Nat.add_0_r | rewrite Nat.add_succ_r; apply Hocc; lia].
      * right. split; [| done].
        intros [|j] ?; [by rewrite Nat.add_0_r | rewrite Nat.add_succ_r; apply Hocc; lia].
    + left. exists 0%nat. rewrite Nat.add_0_r. repeat split; [lia | done | intros; lia].
Qed.

(** The first free cell of the orbit is unique. *)
Lemma first_free_unique st f k i i' :
  is_snake_on_position st (orbit f (k + i)) = false ->
  (forall j, (j < i)%nat -> occupied st (orbit f (k + j))) ->
  is_snake_on_position st (orbit f (k + i')) = false ->
  (forall j, (j < i')%nat -> occupied st (orbit f (k + j))) ->
  i = i'.
Proof.
  unfold occupied. intros H1 H2 H3 H4.
  destruct (Nat.lt_total i i') as [Hlt | [? | Hlt]]; [| done |].
  - specialize (H4 _ Hlt). congruence.
  - specialize (H2 _ Hlt). congruence.
Qed.

(** An orbit all of whose first [PROBE_PERIOD] cells are occupied is
    occupied everywhere. *)
Lemma occupied_period st f k :
  (forall j, (j < PROBE_PERIOD)%nat -> occupied st (orbit f (k + j))) ->
  forall j, occupied st (orbit f (k + j)).
Proof.
  intros H j. rewrite orbit_mod.
  replace ((k + j) mod PROBE_PERIOD)%nat
    with ((k + j mod PROBE_PERIOD) mod PROBE_PERIOD)%nat by (rewrite Nat.Div0.add_mod_idemp_r; lia).
  rewrite <- orbit_mod. apply H. apply Nat.mod_upper_bound. unfold PROBE_PERIOD. lia.
Qed.

(** More fuel than [PROBE_PERIOD] never changes the outcome of the probe
    loop on a candidate of the probe sequence: the fuel is enough, and a
    [Diverge] is a [while] loop that runs forever. *)
Lemma probe_fuel_enough n st f k :
  (PROBE_PERIOD <= n)%nat -> probe n st (orbit f k) = probe PROBE_PERIOD st (orbit f k).
Proof.
  intros Hn.
  destruct (probe_orbit_spec PROBE_PERIOD st f k) as [(i & Hi & Hf & Ho & ->) | (Ho & ->)];
  destruct (probe_orbit_spec n st f k) as [(i' & Hi' & Hf' & Ho' & ->) | (Ho' & ->)]; try done.
  - by rewrite (first_free_unique st f k i' i).
  - unfold occupied in Ho'. rewrite Ho' in Hf; [discriminate | lia].
  - unfold occupied in Ho. by rewrite (occupied_period st f k Ho i') in Hf'.
Qed.

(** * The outcome of [spawn_food] *)

Lemma spawn_food_impl_start st :
  (food st).1 + 1 < U16_MOD -> (food st).2 + 1 < U16_MOD ->
  spawn_food_impl st =
    (new_food ← probe PROBE_PERIOD st (orbit (food st) 1); Ret (set_food new_food st, new_food)).
Proof. intros. unfold spawn_food_impl. by rewrite next_candidate_first. Qed.

(** From a food whose successor fits in [u16], [spawn_food] either stores
    and returns the first free cell of the orbit within [PROBE_PERIOD]
    steps, or finds the [PROBE_PERIOD] first cells occupied and runs out of
    fuel. *)
Lemma spawn_food_impl_cases st :
  (food st).1 + 1 < U16_MOD -> (food st).2 + 1 < U16_MOD ->
  (exists i, (i < PROBE_PERIOD)%nat /\
     is_snake_on_position st (orbit (food st) (1 + i)) = false /\
     (forall j, (j < i)%nat -> occupied st (orbit (food st) (1 + j))) /\
     spawn_food_impl st = Ret (set_food (orbit (food st) (1 + i)) st, orbit (food st) (1 + i))) \/
  ((forall j, (j < PROBE_PERIOD)%nat -> occupied st (orbit (food st) (1 + j))) /\
     spawn_food_impl st = Diverge).
Proof.
  intros H1 H2. rewrite spawn_food_impl_start by done.
  destruct (probe_orbit_spec PROBE_PERIOD st (food st) 1) as [(i & Hi & Hf & Ho & ->) | (Ho & ->)];
    [left; exists i | right]; auto.
Qed.

(** A returned [spawn_food] started from a food whose successor fits. *)
Lemma spawn_food_impl_Ret_start st r :
  spawn_food_impl st = Ret r -> (food st).1 + 1 < U16_MOD /\ (food st).2 + 1 < U16_MOD.
Proof.
  unfold spawn_food_impl. intros H.
  apply bind_ret_inv in H as (c & Hc & _). by apply next_candidate_Ret in Hc as (? & ? & _).
Qed.

Lemma spawn_food_impl_orbit st st' p :
  spawn_food_impl st = Ret (st', p) ->
  exists i, (i < PROBE_PERIOD)%nat /\ p = orbit (food st) (1 + i) /\ st' = set_food p st /\
    is_snake_on_position st p = false /\
    (forall j, (j < i)%nat -> occupied st (orbit (food st) (1 + j))).
Proof.
  intros H. destruct (spawn_food_impl_Ret_start _ _ H) as [H1 H2].
  destruct (spawn_food_impl_cases st H1 H2) as [(i & Hi & Hf & Ho & Hs) | (_ & Hs)];
    rewrite Hs in H; [| discriminate].
  injection H as <- <-. exists i. auto.
Qed.

Lemma spawn_food_impl_no_panic st msg : in_grid (food st) -> spawn_food_impl st <> Panic msg.
Proof.
  unfold in_grid, ROWS, COLS. intros Hg.
  destruct (spawn_food_impl_cases st) as [(? & _ & _ & _ & ->) | (_ & ->)];
    [unfold U16_MOD; lia .. | discriminate | discriminate].
Qed.

(** * The [FoodSpawner] instance *)

Lemma spawn_food_impl_fresh st st' p :
  spawn_food_impl st = Ret (st', p) ->
  st' = set_food p st /\ is_snake_on_position st p = false /\ in_grid p.
Proof.
  intros (i & _ & -> & -> & Hf & _)%spawn_food_impl_orbit. split; [done | split; [done |]].
  apply orbit_in_grid.
Qed.

#[export] Instance food_spawner : FoodSpawner := {|
  spawn_food := spawn_food_impl;
  spawn_food_spec := spawn_food_impl_fresh;
  spawn_food_no_panic := spawn_food_impl_no_panic
|}.

(** * Properties of [spawn_food] *)

(** C6: [spawn_food] returns the first cell of the diagonal probe sequence
    [orbit food 1, orbit food 2, ...] that no entry of the snake array
    occupies, found within [PROBE_PERIOD] steps; it stores that cell in
    [food] and changes nothing else.  Any other free cell of the grid that
    is not on the sequence is never chosen. *)
Theorem spawn_food_first_free st st' p :
  spawn_food_impl st = Ret (st', p) ->
  st' = set_food p st /\ in_grid p /\ (p ∉ snake st) /\
  exists k, (k < PROBE_PERIOD)%nat /\ p = orbit (food st) (1 + k) /\
    forall j, (j < k)%nat -> orbit (food st) (1 + j) ∈ snake st.
Proof.
  intros (k & Hk & -> & -> & Hf & Ho)%spawn_food_impl_orbit.
  split; [done | split; [apply orbit_in_grid | split; [by apply is_snake_on_position_false |]]].
  exists k. repeat split; [done |]. intros j Hj. by apply is_snake_on_position_spec, Ho.
Qed.

(** C10: the loop of [spawn_food] exits exactly when some cell of the
    diagonal probe sequence is free, and then within [PROBE_PERIOD] steps;
    it runs forever exactly when every cell of the sequence is occupied.
    When the food is a valid start it never panics. *)
Theorem spawn_food_terminates st :
  (food st).1 + 1 < U16_MOD -> (food st).2 + 1 < U16_MOD ->
  (spawn_food_impl st = Diverge <->
     forall k, is_snake_on_position st (orbit (food st) (1 + k)) = true) /\
  (forall msg, spawn_food_impl st <> Panic msg).
Proof.
  intros H1 H2.
  destruct (spawn_food_impl_cases st H1 H2) as [(i & Hi & Hf & Ho & ->) | (Ho & ->)].
  - split; [| done]. split; [discriminate |]. intros Hall. by rewrite Hall in Hf.
  - split; [| done]. split; [| done]. intros _. by apply occupied_period.
Qed.

(** C19: the candidates move along a diagonal: row and column both grow by
    one, and since [gcd ROWS COLS = 5] the difference [row - col] is the
    same mod 5 for every candidate.  The food can only ever be placed on
    the fifth of the grid on that diagonal class. *)
Theorem spawn_food_diagonal st st' p :
  spawn_food_impl st = Ret (st', p) -> (p.1 - p.2) mod 5 = ((food st).1 - (food st).2) mod 5.
Proof.
  intros (k & _ & -> & _)%spawn_food_impl_orbit. unfold orbit, ROWS, COLS. simpl.
  rewrite !Z.mod_eq by lia.
  set (a := (food st).1 + Z.of_nat (S k)). set (b := (food st).2 + Z.of_nat (S k)).
  replace (a - 25 * (a / 25) - (b - 80 * (b / 80)))
    with ((food st).1 - (food st).2 + (16 * (b / 80) - 5 * (a / 25)) * 5) by (subst a b; lia).
  rewrite <- !Z.mod_eq by lia. apply Z.mod_add. lia.
Qed.

(** C25: the first candidate is computed with the [+] of a debug build:
    a food row or column at [u16::MAX] makes [spawn_food] panic. *)
Theorem spawn_food_overflow st :
  (food st).1 = U16_MOD - 1 \/ (food st).2 = U16_MOD - 1 ->
  spawn_food_impl st = panic_add_overflow.
Proof.
  intros Hf. unfold spawn_food_impl, next_candidate, u16_add.
  destruct Hf as [Hf | Hf].
  - rewrite (checked_add_panic _ (food st).1) by lia. reflexivity.
  - destruct (Z.ltb_spec ((food st).1 + 1) U16_MOD).
    + rewrite (checked_add_ret _ (food st).1) by lia. cbn [mbind outcome_bind].
      rewrite (checked_add_panic _ (food st).2) by lia. reflexivity.
    + rewrite (checked_add_panic _ (food st).1) by lia. reflexivity.
Qed.

(** * The theorems at concrete states *)

(** The boot sequence of [_start]: [new], then [spawn_food] from [(0, 0)],
    whose first candidate [(1, 1)] is free. *)
Lemma spawn_food_first_free_witness :
  spawn_food_impl new = Ret (set_food (1, 1) new, (1, 1)) /\
  exists k, (k < PROBE_PERIOD)%nat /\ ((1, 1) : pos) = orbit (food new) (1 + k).
Proof.
  split; [concrete |].
  destruct (spawn_food_first_free new (set_food (1, 1) new) (1, 1)) as (_ & _ & _ & k & Hk & Hp & _);
    [concrete |].
  exists k. split; assumption.
Defined.

Lemma spawn_food_terminates_witness :
  (food new).1 + 1 < U16_MOD /\ (food new).2 + 1 < U16_MOD /\
  forall msg, spawn_food_impl new <> Panic msg.
Proof.
  assert (H1 : (food new).1 + 1 < U16_MOD) by concrete.
  assert (H2 : (food new).2 + 1 < U16_MOD) by concrete.
  split; [exact H1 | split; [exact H2 | exact (proj2 (spawn_food_terminates new H1 H2))]].
Defined.

Lemma spawn_food_diagonal_witness :
  spawn_food_impl (set_food (3, 0) new) = Ret (set_food (4, 1) new, (4, 1)) /\
  ((4 : Z) - 1) mod 5 = ((food (set_food (3, 0) new)).1 - (food (set_food (3, 0) new)).2) mod 5.
Proof.
  assert (H : spawn_food_impl (set_food (3, 0) new) = Ret (set_food (4, 1) new, (4, 1))) by concrete.
  split; [exact H | exact (spawn_food_diagonal _ _ _ H)].
Defined.

Lemma spawn_food_overflow_witness :
  (food (set_food (U16_MOD - 1, 0) new)).1 = U16_MOD - 1 /\
  spawn_food_impl (set_food (U16_MOD - 1, 0) new) = panic_add_overflow.
Proof.
  assert (H : (food (set_food (U16_MOD - 1, 0) new)).1 = U16_MOD - 1) by reflexivity.
  split; [exact H | exact (spawn_food_overflow _ (or_introl H))].
Defined.

