(* ===== verification/Engine.v ===== *)
(** * One tick of the game: [GameState::update] of [src/src/lib.rs]
    (lines 88-119)

    The head moves one block in the current direction (with [u16]
    wrap-around), the whole array is rotated right by one and the new head
    written at index 0; then, in this order, the wall check (a panic), the
    food check (score and length grow by one, [spawn_food] is called), and
    the self check [for i in 1..self.length] (a panic).  Every [usize]
    addition and every array access is checked as in a debug build.

    [update] is defined against the [FoodSpawner] interface of [State]; the
    theorems of the Section [Tick] hold for every spawner that meets it,
    the concrete one of [Food] included. *)

From S2P Require Import Prelude Direction Grid State Food.

Local Open Scope Z_scope.
Import GameState.

(** The loop [for i in 1..self.length { if new_head == self.snake[i] {
    panic!("Game Over!") } }] over the indices it visits. *)
Fixpoint check_self_collision (snake : list pos) (new_head : pos) (idxs : list Z) : outcome unit :=
  match idxs with
  | [] => Ret tt
  | i :: idxs' =>
      segment ← index snake i;
      if bool_decide (new_head = segment) then panic_game_over
      else check_self_collision snake new_head idxs'
  end.

Section Tick.
Context `{FS : FoodSpawner}.

(** [GameState::update]. *)
Definition update (st : GameState.t) : outcome GameState.t :=
  head ← index (snake st) 0;
  let new_head := move_head (direction st) head in
  arr ← rotate_right 1 (snake st);
  arr ← index_set arr 0 new_head;
  let st := set_snake arr st in
  if hits_wall new_head then panic_game_over
  else
    st ← (if bool_decide (new_head = food st) then
            new_score ← usize_add (score st) 1;
            new_length ← usize_add (length st) 1;
            '(st, _) ← spawn_food (set_length new_length (set_score new_score st));
            Ret st
          else Ret st);
    _ ← check_self_collision (snake st) new_head (range 1 (length st));
    Ret st.
End Tick.

(** * The self-collision loop *)

Lemma check_self_collision_seq arr h s n :
  (s + n <= base.length arr)%nat ->
  check_self_collision arr h (map Z.of_nat (seq s n)) =
    if bool_decide (h ∈ take n (drop s arr)) then panic_game_over else Ret tt.
Proof.
  revert s. induction n as [|n IH]; intros s Hn; simpl.
  - done.
  - destruct (lookup_lt_is_Some_2 arr s) as [x Hx]; [lia |].
    rewrite (index_lookup _ _ _ Hx), (drop_S _ _ _ Hx), firstn_cons. simpl.
    rewrite IH by lia.
    case_bool_decide as Hhx; [subst; by rewrite bool_decide_eq_true_2 by set_solver |].
    do 2 case_bool_decide; [done | set_solver | set_solver | done].
Qed.

(** A loop whose range passes the end of the array: a hit before the end
    ends the game, otherwise the first index past the end panics. *)
Lemma check_self_collision_seq_oob arr h s n :
  (s <= base.length arr < s + n)%nat ->
  check_self_collision arr h (map Z.of_nat (seq s n)) =
    if bool_decide (h ∈ drop s arr) then panic_game_over else panic_index.
Proof.
  revert s. induction n as [|n IH]; intros s Hn; [lia |]. simpl.
  destruct (decide (s = base.length arr)) as [-> | Hs].
  - rewrite index_out by lia. rewrite drop_all. by rewrite bool_decide_eq_false_2 by set_solver.
  - destruct (lookup_lt_is_Some_2 arr s) as [x Hx]; [lia |].
    rewrite (index_lookup _ _ _ Hx), (drop_S _ _ _ Hx). cbn [mbind outcome_bind].
    rewrite IH by lia.
    case_bool_decide as Hhx; [subst; by rewrite bool_decide_eq_true_2 by set_solver |].
    do 2 case_bool_decide; [done | set_solver | set_solver | done].
Qed.

(** The loop panics exactly when the new head is one of the cells at
    indices [1 .. len) of the array. *)
Lemma check_self_collision_range arr h len :
  1 <= len -> (Z.to_nat len <= base.length arr)%nat ->
  check_self_collision arr h (range 1 len) =
    if bool_decide (h ∈ take (Z.to_nat len - 1) (drop 1 arr)) then panic_game_over else Ret tt.
Proof.
  intros. unfold range. replace (Z.to_nat (len - 1)) with (Z.to_nat len - 1)%nat by lia.
  apply check_self_collision_seq. lia.
Qed.

(** * Unfolding one tick *)

Section TickLemmas.
Context `{FS : FoodSpawner}.

(** The array after the shift: the new head, then the old cells but the
    last. *)
Definition shifted (st : GameState.t) (h : pos) : GameState.t :=
  set_snake (h :: removelast (snake st)) st.

Lemma update_eq st hd :
  snake st !! 0%nat = Some hd ->
  update st =
    (let new_head := move_head (direction st) hd in
     let st := shifted st new_head in
     if hits_wall new_head then panic_game_over
     else
       st ← (if bool_decide (new_head = food st) then
               new_score ← usize_add (score st) 1;
               new_length ← usize_add (length st) 1;
               '(st, _) ← spawn_food (set_length new_length (set_score new_score st));
               Ret st
             else Ret st);
       _ ← check_self_collision (snake st) new_head (range 1 (length st));
       Ret st).
Proof.
  intros Hhd. unfold update.
  pose proof (index_lookup _ 0 _ Hhd) as Hi. change (Z.of_nat 0) with 0 in Hi.
  rewrite Hi. cbn [mbind outcome_bind].
  rewrite rotate_right_1_set; [reflexivity |].
  intros Hnil. rewrite Hnil in Hhd. discriminate.
Qed.

(** A head that the wall test catches ends the game before the food and
    self checks. *)
Lemma update_wall_eq st hd :
  snake st !! 0%nat = Some hd ->
  hits_wall (move_head (direction st) hd) = true ->
  update st = panic_game_over.
Proof. intros Hhd Hw. rewrite (update_eq _ _ Hhd). simpl. by rewrite Hw. Qed.

(** A tick that misses the wall and the food: the shifted state, or the
    end of the game when the new head is one of the cells at indices
    [1 .. length) after the shift. *)
Lemma update_move_eq st hd :
  snake st !! 0%nat = Some hd ->
  let h := move_head (direction st) hd in
  hits_wall h = false -> h <> food st ->
  1 <= length st -> (Z.to_nat (length st) <= base.length (snake st))%nat ->
  update st =
    if bool_decide (h ∈ take (Z.to_nat (length st) - 1) (snake st)) then panic_game_over
    else Ret (shifted st h).
Proof.
  intros Hhd h Hw Hf Hlen Hcap. rewrite (update_eq _ _ Hhd). simpl. fold h.
  rewrite Hw, bool_decide_eq_false_2 by done. cbn [mbind outcome_bind].
  rewrite check_self_collision_range; simpl; [| done | ].
  - rewrite drop_0, firstn_removelast by lia. by case_bool_decide.
  - rewrite length_removelast. lia.
Qed.

(** A tick that reaches the food: the grown state the spawner returns, or
    the end of the game when the new head is one of the cells at indices
    [1 .. length + 1) after the shift. *)
Lemma update_eat_eq st hd st' p :
  snake st !! 0%nat = Some hd ->
  let h := move_head (direction st) hd in
  hits_wall h = false -> h = food st ->
  score st + 1 < USIZE_MOD -> length st + 1 < USIZE_MOD ->
  1 <= length st -> (Z.to_nat (length st) < base.length (snake st))%nat ->
  spawn_food (set_length (length st + 1) (set_score (score st + 1) (shifted st h))) = Ret (st', p) ->
  update st =
    (if bool_decide (h ∈ take (Z.to_nat (length st)) (snake st)) then panic_game_over
     else Ret st') /\
  st' = set_food p (set_length (length st + 1) (set_score (score st + 1) (shifted st h))) /\
  (p ∉ snake st') /\ in_grid p.
Proof.
  intros Hhd h Hw Hf Hs Hl Hlen Hcap Hsp.
  destruct (spawn_food_spec _ _ _ Hsp) as (-> & Hfree%is_snake_on_position_false & Hgrid).
  split; [| done].
  rewrite (update_eq _ _ Hhd). simpl. fold h.
  rewrite Hw, bool_decide_eq_true_2 by done.
  unfold usize_add. rewrite !checked_add_ret by done. cbn [mbind outcome_bind].
  rewrite Hsp. cbn [mbind outcome_bind].
  rewrite check_self_collision_range; simpl; [| lia | ].
  - rewrite drop_0, Z2Nat.inj_add, Nat.add_sub, firstn_removelast by lia.
    by case_bool_decide.
  - rewrite length_removelast. lia.
Qed.

(** When the spawner's loop never exits, neither does the tick. *)
Lemma update_eat_diverge st hd :
  snake st !! 0%nat = Some hd ->
  let h := move_head (direction st) hd in
  hits_wall h = false -> h = food st ->
  score st + 1 < USIZE_MOD -> length st + 1 < USIZE_MOD ->
  spawn_food (set_length (length st + 1) (set_score (score st + 1) (shifted st h))) = Diverge ->
  update st = Diverge.
Proof.
  intros Hhd h Hw Hf Hs Hl Hsp. rewrite (update_eq _ _ Hhd). simpl. fold h.
  rewrite Hw, bool_decide_eq_true_2 by done.
  unfold usize_add. rewrite !checked_add_ret by done. cbn [mbind outcome_bind].
  by rewrite Hsp.
Qed.

(** The active segments after a move and after a growth. *)
Lemma active_shifted st h :
  1 <= length st -> (Z.to_nat (length st) <= base.length (snake st))%nat ->
  active (shifted st h) = h :: removelast (active st).
Proof.
  intros Hl Hcap. unfold active, shifted, set_snake. cbn [snake length].
  replace (Z.to_nat (length st)) with (S (Z.to_nat (length st) - 1)) by lia.
  rewrite firstn_cons, removelast_firstn, firstn_removelast by lia. reflexivity.
Qed.

Lemma active_grown st h n :
  0 <= length st -> (Z.to_nat (length st) < base.length (snake st))%nat ->
  active (set_length (length st + 1) (set_score n (shifted st h))) = h :: active st.
Proof.
  intros Hl Hcap. unfold active, shifted, set_snake, set_score, set_length. cbn [snake length].
  rewrite Z2Nat.inj_add, Nat.add_1_r, firstn_cons, firstn_removelast by lia. reflexivity.
Qed.

(** C24: the capacity path.  Eating when [length] already equals the size
    of the array makes the self-collision loop run one index past the end:
    unless the new head hits a segment first, the tick panics with an
    index error, not with ["Game Over!"]. *)
Theorem update_capacity_panic st hd st' p :
  snake st !! 0%nat = Some hd ->
  let h := move_head (direction st) hd in
  hits_wall h = false -> h = food st ->
  score st + 1 < USIZE_MOD -> length st + 1 < USIZE_MOD ->
  Z.to_nat (length st) = base.length (snake st) -> 1 <= length st ->
  spawn_food (set_length (length st + 1) (set_score (score st + 1) (shifted st h))) = Ret (st', p) ->
  update st =
    if bool_decide (h ∈ removelast (snake st)) then panic_game_over else panic_index.
Proof.
  intros Hhd h Hw Hf Hs Hl Hfull Hlen Hsp.
  destruct (spawn_food_spec _ _ _ Hsp) as (-> & _ & _).
  rewrite (update_eq _ _ Hhd). simpl. fold h.
  rewrite Hw, bool_decide_eq_true_2 by done.
  unfold usize_add. rewrite !checked_add_ret by done. cbn [mbind outcome_bind].
  rewrite Hsp. cbn [mbind outcome_bind].
  unfold range. replace (Z.to_nat (length st + 1 - 1)) with (base.length (snake st)) by lia.
  rewrite check_self_collision_seq_oob; simpl; rewrite ?length_removelast; [| lia].
  rewrite drop_0. by case_bool_decide.
Qed.

(** C2: a head that leaves the grid on any of its four sides ends the
    game: for a head in the grid, [update] panics with ["Game Over!"]
    whenever the move in signed arithmetic leaves the grid, before the
    food and self checks. *)
Theorem update_wall st hd :
  snake st !! 0%nat = Some hd -> in_grid hd ->
  ~ in_grid (signed_move (direction st) hd) ->
  update st = panic_game_over.
Proof.
  intros Hhd Hg Hout. apply (update_wall_eq st hd Hhd).
  destruct (hits_wall _) eqn:Hw; [done |].
  by apply (proj1 (move_head_in_grid (direction st) hd Hg)) in Hw.
Qed.

(** C3: a tick that neither hits the wall nor reaches the food moves the
    snake one cell: the active segments become the new head followed by
    all but the last old active segment, and [length], [score], [food],
    [direction] and the array size are kept.  The game ends instead
    exactly when the new head is one of those kept segments. *)
Theorem update_move st hd :
  snake st !! 0%nat = Some hd ->
  let h := move_head (direction st) hd in
  hits_wall h = false -> h <> food st ->
  1 <= length st -> (Z.to_nat (length st) <= base.length (snake st))%nat ->
  (h ∈ take (Z.to_nat (length st) - 1) (active st) -> update st = panic_game_over) /\
  (h ∉ take (Z.to_nat (length st) - 1) (active st) ->
   exists st', update st = Ret st' /\
     active st' = h :: take (Z.to_nat (length st) - 1) (active st) /\
     base.length (snake st') = base.length (snake st) /\
     length st' = length st /\ score st' = score st /\ food st' = food st /\
     direction st' = direction st).
Proof.
  intros Hhd h Hw Hf Hl Hcap. unfold active. rewrite take_take, Nat.min_l by lia.
  rewrite (update_move_eq st hd Hhd Hw Hf Hl Hcap).
  split; intros Hin; [by rewrite bool_decide_eq_true_2 | rewrite bool_decide_eq_false_2 by done].
  eexists; split; [reflexivity |]. unfold shifted, set_snake; cbn [snake length score food direction].
  assert (base.length (snake st) <> 0%nat) by (apply lookup_lt_Some in Hhd; lia).
  split; [| split; [rewrite length_cons, length_removelast; lia | done]].
  replace (Z.to_nat (length st)) with (S (Z.to_nat (length st) - 1)) at 1 by lia.
  rewrite firstn_cons, firstn_removelast by lia. reflexivity.
Qed.

(** C4: a tick whose new head reaches the food grows the snake: the
    active segments become the new head followed by all the old ones,
    [length] and [score] go up by one, and the food moves to a grid cell
    that no entry of the new array occupies.  The game ends instead
    exactly when the new head is one of the old active segments. *)
Theorem update_eat st hd st' p :
  snake st !! 0%nat = Some hd ->
  let h := move_head (direction st) hd in
  hits_wall h = false -> h = food st ->
  score st + 1 < USIZE_MOD -> length st + 1 < USIZE_MOD ->
  1 <= length st -> (Z.to_nat (length st) < base.length (snake st))%nat ->
  spawn_food (set_length (length st + 1) (set_score (score st + 1) (shifted st h))) = Ret (st', p) ->
  (h ∈ active st -> update st = panic_game_over) /\
  (h ∉ active st ->
   update st = Ret st' /\ active st' = h :: active st /\
   length st' = length st + 1 /\ score st' = score st + 1 /\ food st' = p /\
   (p ∉ snake st') /\ in_grid p).
Proof.
  intros Hhd h Hw Hf Hs Hl Hlen Hcap Hsp.
  destruct (update_eat_eq st hd st' p Hhd Hw Hf Hs Hl Hlen Hcap Hsp) as (Hup & -> & Hp & Hg).
  unfold active. rewrite Hup.
  split; intros Hin; [by rewrite bool_decide_eq_true_2 | rewrite bool_decide_eq_false_2 by done].
  split; [done |]. unfold set_food, set_length, set_score, shifted, set_snake.
  cbn [snake length score food]. split; [| auto].
  rewrite Z2Nat.inj_add, Nat.add_1_r, firstn_cons, firstn_removelast by lia. reflexivity.
Qed.

(** C17: [update_direction] does not reject a reversal: when the last tick
    moved the head from [prev] in direction [d], turning to [opposite d]
    makes the next tick drive the head back onto [prev], the segment at
    index 1, and a snake of three or more segments ends the game. *)
Theorem reverse_into_neck st d hd prev :
  snake st !! 0%nat = Some hd -> snake st !! 1%nat = Some prev ->
  hd = move_head d prev -> in_grid prev -> prev <> food st ->
  3 <= length st -> (Z.to_nat (length st) <= base.length (snake st))%nat ->
  update (update_direction st (opposite d)) = panic_game_over.
Proof.
  intros Hhd Hprev -> Hg Hf Hl Hcap.
  assert (Hback : move_head (opposite d) (move_head d prev) = prev)
    by (apply move_head_opposite, in_grid_pos_ok, Hg).
  pose proof (update_move_eq (update_direction st (opposite d)) (move_head d prev) Hhd) as Heq.
  cbv zeta in Heq. cbn [direction update_direction set_direction] in Heq. rewrite Hback in Heq.
  rewrite Heq; [| apply hits_wall_false; unfold in_grid in Hg; lia | exact Hf | simpl; lia | exact Hcap].
  rewrite bool_decide_eq_true_2; [done |].
  apply list_elem_of_lookup. exists 1%nat. rewrite lookup_take_lt by (simpl; lia). exact Hprev.
Qed.

(** C9: the [+= 1] of a debug build on eating.  A tick whose head reaches
    the food panics with ["attempt to add with overflow"] when [score] is
    [usize::MAX] ([self.score += 1], line 108), or when [score] can grow
    but [length] is [usize::MAX] ([self.length += 1], line 109): the
    score is checked first, and the spawner never runs. *)
Theorem update_eat_overflow st hd :
  snake st !! 0%nat = Some hd ->
  let h := move_head (direction st) hd in
  hits_wall h = false -> h = food st ->
  (USIZE_MOD <= score st + 1 \/ (score st + 1 < USIZE_MOD /\ USIZE_MOD <= length st + 1)) ->
  update st = panic_add_overflow.
Proof.
  intros Hhd h Hw Hf Hov. rewrite (update_eq _ _ Hhd). simpl. fold h.
  rewrite Hw, bool_decide_eq_true_2 by done. unfold usize_add.
  destruct Hov as [Hs | [Hs Hl]].
  - rewrite (checked_add_panic _ (score st) 1 Hs). reflexivity.
  - rewrite (checked_add_ret _ (score st) 1 Hs). cbn [mbind outcome_bind].
    rewrite (checked_add_panic _ (length st) 1 Hl). reflexivity.
Qed.

End TickLemmas.

(** * Ticks at concrete states, with the spawner of [Food] *)

(** The initial state turned upwards with its head on the top row. *)
Definition top_row_state : GameState.t :=
  set_snake (<[0%nat := ((0, 40) : pos)]> (snake new)) (set_direction Up new).

Lemma update_wall_witness :
  snake top_row_state !! 0%nat = Some (0, 40) /\ in_grid (0, 40) /\
  ~ in_grid (signed_move (direction top_row_state) (0, 40)) /\
  update top_row_state = panic_game_over.
Proof.
  assert (H1 : snake top_row_state !! 0%nat = Some (0, 40)) by reflexivity.
  assert (H2 : in_grid (0, 40)) by (unfold in_grid, ROWS, COLS; simpl; lia).
  assert (H3 : ~ in_grid (signed_move (direction top_row_state) (0, 40)))
    by (unfold top_row_state, set_snake, set_direction, in_grid, ROWS, COLS; simpl; unfold BLOCK_SIZE; lia).
  split; [done | split; [done | split; [done | exact (update_wall _ _ H1 H2 H3)]]].
Defined.

Lemma update_move_witness :
  exists st', update new = Ret st' /\ active st' = (12, 42) :: take 9 (active new).
Proof.
  destruct (update_move new (12, 40)) as [_ Hok]; [concrete .. |].
  destruct Hok as (st' & Hup & Hact & _); [concrete |].
  exists st'. split; assumption.
Defined.

(** The spec's reversal scenario: one step right, then [Left], drives the
    head into the neck. *)
Lemma reverse_into_neck_witness :
  update (update_direction (shifted new (12, 42)) (opposite Right)) = panic_game_over.
Proof.
  apply (reverse_into_neck (shifted new (12, 42)) Right (12, 42) (12, 40)); concrete.
Defined.

(** The initial state with the food right of the head. *)
Definition eat_state : GameState.t := set_food (12, 42) new.

Definition eat_after : GameState.t :=
  set_food (13, 43) (set_length 11 (set_score 1 (shifted eat_state (12, 42)))).

Lemma update_eat_witness :
  update eat_state = Ret eat_after /\ active eat_after = (12, 42) :: active eat_state.
Proof.
  destruct (update_eat eat_state (12, 40) eat_after (13, 43)) as [_ Hok]; [concrete .. |].
  destruct Hok as (Hup & Hact & _); [concrete |].
  split; assumption.
Defined.

(** A full snake, length 500, eating at the centre. *)
Definition full_state : GameState.t :=
  set_length 500 (set_food (12, 42) new).

Lemma update_capacity_panic_witness : update full_state = panic_index.
Proof.
  rewrite (update_capacity_panic full_state (12, 40) (set_food (13, 43)
    (set_length 501 (set_score 1 (shifted full_state (12, 42))))) (13, 43)); concrete.
Defined.

(** The eating state with the largest score: the tick panics on the score. *)
Lemma update_eat_overflow_witness :
  update (set_score (USIZE_MOD - 1) eat_state) = panic_add_overflow.
Proof.
  apply (update_eat_overflow _ (12, 40)); [concrete | concrete | concrete |].
  left. unfold USIZE_MOD. simpl. lia.
Defined.
