(* ===== verification/Abstract.v ===== *)
(** * The spec's game engine as an abstract state machine, and the
    refinement theorem for [update]

    The spec (sections 3, 4.1 and 8) describes the engine over the active
    segments only: a state [Running] or [Over], a head moved in the grid
    by one block, a wall collision, a food collision checked before the
    self collision, growth by one, and a new food placed anywhere off the
    snake.  [advance] is that description as a relation; the choice of the
    new food is left open.

    [update_refines] shows that every tick of [update] that returns is an
    [advance] step of the abstraction [abs], and that every tick that
    panics panics with ["Game Over!"] where [advance] goes to [Over].  It
    is proved for every spawner that meets the [FoodSpawner] interface,
    under the bounds the code needs ([length] below [MAX_SNAKE_LENGTH], the
    score below [usize::MAX]).  What the abstract machine has and the code
    has not: the [Over] state itself (the code panics and the kernel
    stops), and a food choice that always exists (the code's loop may
    never exit, see [Food]).  [spec_step] adds the spec's direction
    change ([turn]) to [advance]; it is the machine [Session.session_refines]
    relates whole sessions to. *)

From S2P Require Import Prelude Direction Grid State Food Engine.

Local Open Scope Z_scope.
Import GameState.

Inductive status : Type := Running | Over.

Record game : Type := mk_game {
  segments : list pos;     (** the active segments, head first *)
  heading : Direction;
  food_at : pos;
  points : Z;
  status_of : status
}.

Definition game_over (g : game) : game :=
  mk_game (segments g) (heading g) (food_at g) (points g) Over.

(** One [advance()] of the spec. *)
Inductive advance : game -> game -> Prop :=
| advance_idle g :
    status_of g = Over -> advance g g
| advance_wall g hd rest :
    status_of g = Running -> segments g = hd :: rest ->
    ~ in_grid (signed_move (heading g) hd) ->
    advance g (game_over g)
| advance_self g hd rest :
    status_of g = Running -> segments g = hd :: rest ->
    in_grid (signed_move (heading g) hd) -> signed_move (heading g) hd <> food_at g ->
    signed_move (heading g) hd ∈ removelast (segments g) ->
    advance g (game_over g)
| advance_move g hd rest :
    status_of g = Running -> segments g = hd :: rest ->
    in_grid (signed_move (heading g) hd) -> signed_move (heading g) hd <> food_at g ->
    signed_move (heading g) hd ∉ removelast (segments g) ->
    advance g (mk_game (signed_move (heading g) hd :: removelast (segments g))
                 (heading g) (food_at g) (points g) Running)
| advance_eat_self g hd rest :
    status_of g = Running -> segments g = hd :: rest ->
    in_grid (signed_move (heading g) hd) -> signed_move (heading g) hd = food_at g ->
    signed_move (heading g) hd ∈ segments g ->
    advance g (game_over g)
| advance_eat g hd rest f :
    status_of g = Running -> segments g = hd :: rest ->
    in_grid (signed_move (heading g) hd) -> signed_move (heading g) hd = food_at g ->
    signed_move (heading g) hd ∉ segments g ->
    in_grid f -> f ∉ signed_move (heading g) hd :: segments g ->
    advance g (mk_game (signed_move (heading g) hd :: segments g)
                 (heading g) f (points g + 1) Running).

(** The abstraction of a state of the code: its active segments. *)
Definition abs (st : GameState.t) : game :=
  mk_game (active st) (direction st) (food st) (score st) Running.

Lemma active_head st hd :
  snake st !! 0%nat = Some hd -> 1 <= length st -> exists rest, active st = hd :: rest.
Proof.
  intros Hhd Hl. unfold active. destruct (snake st) as [|x a]; [discriminate |].
  injection Hhd as ->. replace (Z.to_nat (length st)) with (S (Z.to_nat (length st) - 1)) by lia.
  eauto.
Qed.

Section Refinement.
Context `{FS : FoodSpawner}.

(** The state the tick starts from: a well-formed array whose head is in
    the grid, room for one more segment, a score that can grow. *)
Variables (st : GameState.t) (hd : pos).
Hypothesis Hwf : wf_state st.
Hypothesis Hhd : snake st !! 0%nat = Some hd.
Hypothesis Hgrid : in_grid hd.
Hypothesis Hlen : 1 <= length st < MAX_SNAKE_LENGTH.
Hypothesis Hscore : score st + 1 < USIZE_MOD.

Lemma refine_size : (Z.to_nat (length st) < base.length (snake st))%nat.
Proof. destruct Hwf as [Hs _]. rewrite MAX_SNAKE_LENGTH_eq in *. lia. Qed.

Lemma refine_signed :
  hits_wall (move_head (direction st) hd) = false ->
  in_grid (signed_move (direction st) hd) /\
  move_head (direction st) hd = signed_move (direction st) hd.
Proof.
  intros Hw. destruct (move_head_in_grid (direction st) hd Hgrid) as [Hiff Heq].
  apply Hiff in Hw. auto.
Qed.

Lemma refine_wall :
  hits_wall (move_head (direction st) hd) = true ->
  (forall st', update st = Ret st' -> advance (abs st) (abs st')) /\
  (forall msg, update st = Panic msg -> msg = "Game Over!" /\ advance (abs st) (game_over (abs st))).
Proof.
  intros Hw. rewrite (update_wall_eq st hd Hhd Hw).
  split; [discriminate | intros msg [= <-]; split; [done |]].
  destruct (active_head st hd Hhd ltac:(lia)) as [rest Hrest].
  apply (advance_wall _ hd rest); [done | done |]. simpl.
  intros Hin. apply (proj1 (move_head_in_grid (direction st) hd Hgrid)) in Hin. congruence.
Qed.

Lemma refine_move :
  hits_wall (move_head (direction st) hd) = false -> move_head (direction st) hd <> food st ->
  (forall st', update st = Ret st' -> advance (abs st) (abs st')) /\
  (forall msg, update st = Panic msg -> msg = "Game Over!" /\ advance (abs st) (game_over (abs st))).
Proof.
  intros Hw Hf. pose proof refine_size as Hcap.
  destruct (refine_signed Hw) as [Hin Heq]. rewrite <- Heq in Hin.
  destruct (active_head st hd Hhd ltac:(lia)) as [rest Hrest].
  assert (Hrl : removelast (active st) = take (Z.to_nat (length st) - 1) (snake st)).
  { unfold active. replace (Z.to_nat (length st)) with (S (Z.to_nat (length st) - 1)) at 1 by lia.
    apply removelast_firstn. lia. }
  rewrite (update_move_eq st hd Hhd Hw Hf ltac:(lia) ltac:(lia)).
  case_bool_decide as Hc; split; try discriminate.
  - intros msg [= <-]. split; [done |].
    apply (advance_self _ hd rest); simpl; rewrite <- ?Heq, ?Hrl; done.
  - intros st' [= <-]. unfold abs. rewrite active_shifted by lia. rewrite Heq.
    apply (advance_move (abs st) hd rest); simpl; rewrite <- ?Heq, ?Hrl; done.
Qed.

Lemma refine_eat :
  hits_wall (move_head (direction st) hd) = false -> move_head (direction st) hd = food st ->
  (forall st', update st = Ret st' -> advance (abs st) (abs st')) /\
  (forall msg, update st = Panic msg -> msg = "Game Over!" /\ advance (abs st) (game_over (abs st))).
Proof.
  intros Hw Hf. pose proof refine_size as Hcap.
  destruct (refine_signed Hw) as [Hin Heq]. rewrite <- Heq in Hin.
  destruct (active_head st hd Hhd ltac:(lia)) as [rest Hrest].
  assert (Hl1 : length st + 1 < USIZE_MOD)
    by (rewrite MAX_SNAKE_LENGTH_eq in Hlen; unfold USIZE_MOD; lia).
  set (grown := set_length (length st + 1)
                  (set_score (score st + 1) (shifted st (move_head (direction st) hd)))).
  destruct (spawn_food grown) as [[st2 p] | msg |] eqn:Hsp.
  - destruct (update_eat_eq st hd st2 p Hhd Hw Hf Hscore Hl1 ltac:(lia) Hcap Hsp)
      as (Hup & -> & Hp & Hpg).
    rewrite Hup. clear Hup. fold (active st).
    case_bool_decide as Hc; split; try discriminate.
    + intros msg [= <-]. split; [done |].
      apply (advance_eat_self _ hd rest); simpl; rewrite <- ?Heq; done.
    + intros st' [= <-]. fold grown.
      assert (Hact : active grown = move_head (direction st) hd :: active st)
        by (apply active_grown; lia).
      assert (abs (set_food p grown) =
              mk_game (signed_move (direction st) hd :: active st) (direction st) p (score st + 1) Running)
        as -> by (unfold abs; change (active (set_food p grown)) with (active grown); by rewrite Hact, Heq).
      apply (advance_eat (abs st) hd rest p); simpl; rewrite <- ?Heq; try done.
      intros Hpin. apply Hp. rewrite <- Hact in Hpin. apply active_subseteq in Hpin. exact Hpin.
  - exfalso. apply (spawn_food_no_panic grown msg); [| done].
    change (food grown) with (food st). rewrite <- Hf. exact Hin.
  - rewrite (update_eat_diverge st hd Hhd Hw Hf Hscore Hl1 Hsp).
    split; discriminate.
Qed.

(** C5: refinement.  On a state with its head in the grid and room to
    grow, every tick of [update] that returns is an [advance] of the
    spec's machine on the active segments, and every tick that panics
    panics with ["Game Over!"] where the spec's machine goes to [Over]. *)
Theorem update_refines :
  (forall st', update st = Ret st' -> advance (abs st) (abs st')) /\
  (forall msg, update st = Panic msg -> msg = "Game Over!" /\ advance (abs st) (game_over (abs st))).
Proof.
  destruct (hits_wall (move_head (direction st) hd)) eqn:Hw; [by apply refine_wall |].
  destruct (decide (move_head (direction st) hd = food st));
    [by apply refine_eat | by apply refine_move].
Qed.
End Refinement.

(** The spec's [setDirection(d)]: overwrite the heading. *)
Definition turn (g : game) (d : Direction) : game :=
  mk_game (segments g) d (food_at g) (points g) (status_of g).

(** One call of the spec's interface: a tick or a change of direction. *)
Inductive spec_step : game -> game -> Prop :=
| spec_advance g g' : advance g g' -> spec_step g g'
| spec_turn g d : spec_step g (turn g d).

Lemma abs_update_direction st d : abs (update_direction st d) = turn (abs st) d.
Proof. reflexivity. Qed.

(** The refinement at the eating tick of [Engine]: the code's step is the
    spec's [advance_eat]. *)
Lemma update_refines_witness : advance (abs eat_state) (abs eat_after).
Proof.
  assert (Hwf : wf_state eat_state)
    by (apply wf_set_food; [apply wf_new | unfold pos_ok, u16_ok, U16_MOD; simpl; lia]).
  assert (Hg : in_grid (12, 40)) by (unfold in_grid, ROWS, COLS; simpl; lia).
  destruct (update_refines eat_state (12, 40) Hwf) as [Hret _]; [concrete .. | apply Hret; concrete].
Defined.
