(* ===== verification/Session.v ===== *)
(** * Sessions of the engine: reachability and its invariants

    The boot sequence of [_start] in [src/src/main.rs] (lines 16-19:
    [GameState::new()] then [kernel.spawn_food()]) gives the first state.
    From there a client of the engine may call [update_direction],
    [update] and [key] in any order: [step] is that relation and
    [reachable] its closure from the boot state, by rule induction.

    [session_inv] is the invariant of every reachable state.  Its surprising
    part is the parity argument: the head starts at [(12, 40)] and moves by
    [BLOCK_SIZE = 2], so every cell of the array has even coordinates,
    while the first food is [(1, 1)]: the head never reaches the food, and
    [score], [length] and [food] never change.

    [session_refines] lifts the one-tick refinement [update_refines] to
    sessions: a reachable state abstracts to a state that [spec_step]
    reaches from the boot state's abstraction, by [rtc].

    On every reachable state [spawn_food] returns at once, with (2, 2) or
    (3, 3) ([reachable_spawn_food]), and ticks with no key press end the
    game within [wall_distance] ticks ([game_ends_without_input]): the
    direction never changes, and each tick either ends the game (a wall
    or self collision) or brings the head one block closer to the wall. *)

From S2P Require Import Prelude Direction Grid State Food Engine Abstract.
From stdpp Require Import relations.

Local Open Scope Z_scope.
Import GameState.

(** [let mut kernel = GameState::new(); kernel.spawn_food();] *)
Definition boot : outcome GameState.t :=
  let kernel := new in
  '(kernel, _) ← spawn_food kernel;
  Ret kernel.

(** One call of the engine's interface. *)
Inductive step : GameState.t -> GameState.t -> Prop :=
| step_direction st d : step st (update_direction st d)
| step_update st st' : update st = Ret st' -> step st st'
| step_key st k : step st (key st k).

Inductive reachable : GameState.t -> Prop :=
| reachable_boot st : boot = Ret st -> reachable st
| reachable_step st st' : reachable st -> step st st' -> reachable st'.

Definition good_cell (p : pos) : Prop := in_grid p /\ even_cell p = true.

(** The invariant of every reachable state. *)
Definition session_inv (st : GameState.t) : Prop :=
  wf_state st /\ Forall good_cell (snake st) /\
  food st = (1, 1) /\ score st = 0 /\ length st = 10.

(** * Preservation *)

Lemma boot_eq : boot = Ret (set_food (1, 1) new).
Proof. concrete. Qed.

Lemma session_inv_boot : session_inv (set_food (1, 1) new).
Proof.
  split; [| split; [apply (bool_decide_unpack _); by vm_compute | done]].
  split; [reflexivity |]. split; [apply (bool_decide_unpack _); by vm_compute |].
  unfold pos_ok, u16_ok, usize_ok, U16_MOD, USIZE_MOD. simpl. lia.
Qed.

Lemma good_cell_pos_ok p : good_cell p -> pos_ok p.
Proof. intros [? _]. by apply in_grid_pos_ok. Qed.

(** A head with even coordinates is never the odd cell [(1, 1)]. *)
Lemma even_cell_not_food p : even_cell p = true -> p <> (1, 1).
Proof. intros Hp ->. discriminate. Qed.

(** The head of the array of an invariant state, a good cell. *)
Lemma session_head st :
  session_inv st -> exists hd, snake st !! 0%nat = Some hd /\ good_cell hd.
Proof.
  intros ((Hsize & _) & Hcells & _). rewrite MAX_SNAKE_LENGTH_eq in Hsize.
  destruct (snake st) as [|hd rest]; [discriminate |].
  apply Forall_cons in Hcells as [Hhd _]. eauto.
Qed.

(** A tick from an invariant state that misses the wall never eats: it is
    the move of [update_move_eq]. *)
Lemma session_update_eq st hd :
  session_inv st -> snake st !! 0%nat = Some hd -> good_cell hd ->
  hits_wall (move_head (direction st) hd) = false ->
  update st =
    if bool_decide (move_head (direction st) hd ∈ take 9 (snake st)) then panic_game_over
    else Ret (shifted st (move_head (direction st) hd)).
Proof.
  intros ((Hsize & _) & _ & Hfood & _ & Hlen) Hhd [_ Hhe] Hw.
  rewrite MAX_SNAKE_LENGTH_eq in Hsize.
  rewrite (update_move_eq st hd Hhd Hw), Hlen; [done | | rewrite Hlen; lia | rewrite Hlen; lia].
  rewrite Hfood. by apply even_cell_not_food, move_head_even.
Qed.

Lemma session_inv_update st st' : session_inv st -> update st = Ret st' -> session_inv st'.
Proof.
  intros Hinv Hup. destruct (session_head st Hinv) as (hd & Hhd & Hgood).
  destruct (hits_wall (move_head (direction st) hd)) eqn:Hw.
  { by rewrite (update_wall_eq st hd Hhd Hw) in Hup. }
  rewrite (session_update_eq st hd Hinv Hhd Hgood Hw) in Hup.
  case_bool_decide; [discriminate |]. injection Hup as <-.
  destruct Hinv as ((Hsize & _ & Hfok & Hlok & Hsok) & Hcells & Hfood & Hscore & Hlen).
  set (h := move_head (direction st) hd) in *.
  assert (Hgood' : good_cell h).
  { split; [| apply move_head_even, Hgood].
    apply hits_wall_false_in_grid; [apply move_head_ok, in_grid_pos_ok, Hgood | done]. }
  assert (Hcells' : Forall good_cell (h :: removelast (snake st))).
  { constructor; [done |]. by apply Forall_removelast. }
  split; [| done]. split; [| split; [| done]].
  - unfold shifted, set_snake; cbn [snake].
    rewrite length_cons, length_removelast. rewrite MAX_SNAKE_LENGTH_eq in *. lia.
  - eapply Forall_impl; [exact Hcells' | apply good_cell_pos_ok].
Qed.

Lemma session_inv_step st st' : session_inv st -> step st st' -> session_inv st'.
Proof.
  intros Hinv Hs. destruct Hs as [st d | st st' Hu | st k].
  - destruct Hinv as (Hwf & Hrest). split; [by apply wf_set_direction | exact Hrest].
  - by apply (session_inv_update st).
  - by rewrite key_noop.
Qed.

Lemma session_inv_reachable st : reachable st -> session_inv st.
Proof.
  induction 1 as [st Hb | st st' _ IH Hs].
  - rewrite boot_eq in Hb. injection Hb as <-. apply session_inv_boot.
  - by apply (session_inv_step st).
Qed.

(** * What every reachable state satisfies *)

(** C1: the snake can never eat.  In every state reachable from the boot
    of [_start] by any sequence of [update_direction], [update] and [key],
    the score is 0, the length is 10 and the food is still [(1, 1)]: the
    head only visits cells with even coordinates, the food sits on an odd
    one. *)
Theorem reachable_never_eats st :
  reachable st -> score st = 0 /\ length st = 10 /\ food st = (1, 1).
Proof. intros (_ & _ & ? & ? & ?)%session_inv_reachable. auto. Qed.

(** C12: the shape of every reachable state: [0 < length <= MAX_SNAKE_LENGTH],
    a full array of [MAX_SNAKE_LENGTH] cells, every cell (stale or active)
    inside the grid, the food inside the grid and off the array. *)
Theorem reachable_bounds st :
  reachable st ->
  0 < length st <= MAX_SNAKE_LENGTH /\ wf_state st /\
  Forall in_grid (snake st) /\ in_grid (food st) /\ food st ∉ snake st.
Proof.
  intros (Hwf & Hcells & Hfood & _ & Hlen)%session_inv_reachable.
  rewrite Hlen, MAX_SNAKE_LENGTH_eq, Hfood. split; [lia |]. split; [done |].
  split; [eapply Forall_impl; [exact Hcells | by intros p []] |].
  split; [unfold in_grid, ROWS, COLS; simpl; lia |].
  intros Hin. eapply Forall_forall in Hcells; [| exact Hin]. destruct Hcells as [_ Hev].
  discriminate.
Qed.

(** Of two consecutive cells of a probe orbit, one has an odd column. *)
Lemma orbit_odd_column f k :
  Z.even (orbit f (1 + k)).2 = false \/ Z.even (orbit f (1 + S k)).2 = false.
Proof.
  unfold orbit. cbn [fst snd]. rewrite !even_mod_even by (unfold COLS; done).
  replace (f.2 + Z.of_nat (1 + S k)) with (f.2 + Z.of_nat (1 + k) + 1) by lia.
  rewrite (Z.even_add _ 1). destruct (Z.even (f.2 + Z.of_nat (1 + k))); auto.
Qed.

Lemma odd_column_free st p :
  Forall good_cell (snake st) -> Z.even p.2 = false -> is_snake_on_position st p = false.
Proof.
  intros Hcells Hodd. apply is_snake_on_position_false. intros Hin.
  eapply Forall_forall in Hcells as [_ Hev]; [| exact Hin].
  unfold even_cell in Hev. rewrite Hodd, andb_false_r in Hev. discriminate.
Qed.

(** [probe] with fuel left: one test of the [while] condition. *)
Lemma probe_S n st f :
  probe (S n) st f =
    if is_snake_on_position st f then (f' ← next_candidate f; probe n st f') else Ret f.
Proof. reflexivity. Qed.

(** C11: what [spawn_food] returns on every reachable state.  The food is
    [(1, 1)], so the first candidate is [(2, 2)]; it is taken when no cell
    of the array holds it, and otherwise the loop tries [(3, 3)], which
    has an odd column and so is never on the array: the loop exits after
    at most two tests, with that cell stored as the food. *)
Theorem reachable_spawn_food st :
  reachable st ->
  let p := if is_snake_on_position st (2, 2) then (3, 3) else (2, 2) in
  spawn_food_impl st = Ret (set_food p st, p).
Proof.
  intros (Hwf & Hcells & Hfood & _)%session_inv_reachable. cbv zeta.
  unfold spawn_food_impl. rewrite Hfood.
  change (next_candidate (1, 1)) with (Ret (2, 2) : outcome pos). cbn [mbind outcome_bind].
  change PROBE_PERIOD with (S 399). rewrite probe_S.
  destruct (is_snake_on_position st (2, 2)); cbn [mbind outcome_bind]; [| reflexivity].
  change (next_candidate (2, 2)) with (Ret (3, 3) : outcome pos). cbn [mbind outcome_bind].
  rewrite probe_S, (odd_column_free st (3, 3) Hcells eq_refl). reflexivity.
Qed.

(** * The theorems on a concrete session: boot, then one tick right *)

Definition boot_state : GameState.t := set_food (1, 1) new.

Definition after_one_tick : GameState.t := shifted boot_state (12, 42).

Lemma reachable_after_one_tick : reachable after_one_tick.
Proof.
  apply (reachable_step boot_state); [apply reachable_boot, boot_eq |].
  apply step_update. concrete.
Qed.

Lemma reachable_never_eats_witness :
  reachable after_one_tick /\
  score after_one_tick = 0 /\ length after_one_tick = 10 /\ food after_one_tick = (1, 1).
Proof. split; [apply reachable_after_one_tick | apply reachable_never_eats, reachable_after_one_tick]. Defined.

Lemma reachable_bounds_witness :
  reachable after_one_tick /\ 0 < length after_one_tick <= MAX_SNAKE_LENGTH.
Proof.
  split; [apply reachable_after_one_tick |].
  exact (proj1 (reachable_bounds _ reachable_after_one_tick)).
Defined.

Lemma reachable_spawn_food_witness :
  reachable after_one_tick /\
  spawn_food_impl after_one_tick = Ret (set_food (2, 2) after_one_tick, (2, 2)).
Proof.
  split; [apply reachable_after_one_tick |].
  pose proof (reachable_spawn_food after_one_tick reachable_after_one_tick) as H.
  assert (Hfree : is_snake_on_position after_one_tick (2, 2) = false) by concrete.
  cbv zeta in H. rewrite Hfree in H. exact H.
Defined.

(** * The game can end *)

(** [n] ticks with no input in between. *)
Fixpoint ticks (n : nat) (st : GameState.t) : outcome GameState.t :=
  match n with
  | O => Ret st
  | S n' => st' ← update st; ticks n' st'
  end.

Lemma ticks_reachable n st st' : reachable st -> ticks n st = Ret st' -> reachable st'.
Proof.
  revert st. induction n as [|n IH]; intros st Hr Ht; simpl in Ht.
  - by injection Ht as <-.
  - apply bind_ret_inv in Ht as (st1 & Hu & Ht).
    apply (IH st1); [| done]. eapply reachable_step; [exact Hr | by apply step_update].
Qed.

(** Without input, the game ends: a tick from an invariant state either
    ends the game or moves the head one block closer to the wall. *)
Lemma ticks_end_game m st hd :
  session_inv st -> snake st !! 0%nat = Some hd ->
  Z.to_nat (wall_distance (direction st) hd) = m ->
  exists n, (1 <= n <= m)%nat /\ ticks n st = panic_game_over.
Proof.
  revert st hd. induction m as [|m IH]; intros st hd Hinv Hhd Hm.
  - destruct (session_head st Hinv) as (hd' & Hhd' & [Hg _]). rewrite Hhd in Hhd'.
    injection Hhd' as <-. pose proof (wall_distance_pos (direction st) hd Hg). lia.
  - destruct (session_head st Hinv) as (hd' & Hhd' & Hgood). rewrite Hhd in Hhd'.
    injection Hhd' as <-.
    destruct (hits_wall (move_head (direction st) hd)) eqn:Hw.
    { exists 1%nat. split; [lia |]. cbn [ticks]. by rewrite (update_wall_eq st hd Hhd Hw). }
    pose proof (session_update_eq st hd Hinv Hhd Hgood Hw) as Hup.
    destruct (decide (move_head (direction st) hd ∈ take 9 (snake st))) as [Hin | Hnin].
    { rewrite bool_decide_eq_true_2 in Hup by done.
      exists 1%nat. split; [lia |]. cbn [ticks]. by rewrite Hup. }
    rewrite bool_decide_eq_false_2 in Hup by done.
    destruct (wall_distance_step (direction st) hd (proj1 Hgood) Hw) as [_ Hd].
    destruct (IH (shifted st (move_head (direction st) hd)) (move_head (direction st) hd))
      as (n & Hn & Ht).
    + by apply (session_inv_update st).
    + done.
    + cbn [shifted set_snake direction]. lia.
    + exists (S n). split; [lia |]. cbn [ticks]. rewrite Hup. exact Ht.
Qed.

(** * The whole session refines the spec's machine *)

(** A tick from a reachable state is an [advance] of its abstraction. *)
Lemma reachable_tick_advance st st' :
  reachable st -> update st = Ret st' -> advance (abs st) (abs st').
Proof.
  intros Hr Hu. pose proof (session_inv_reachable _ Hr) as Hinv.
  destruct (session_head st Hinv) as (hd & Hhd & [Hg _]).
  destruct Hinv as (Hwf & _ & _ & Hscore & Hlen).
  assert (Hl : 1 <= length st < MAX_SNAKE_LENGTH) by (rewrite Hlen, MAX_SNAKE_LENGTH_eq; lia).
  assert (Hs : score st + 1 < USIZE_MOD) by (rewrite Hscore; unfold USIZE_MOD; lia).
  destruct (hits_wall (move_head (direction st) hd)) eqn:Hw.
  - edestruct (refine_wall st hd) as [Hret _]; try eassumption. by apply Hret.
  - destruct (decide (move_head (direction st) hd = food st)) as [Hf | Hf].
    + edestruct (refine_eat st hd) as [Hret _]; try eassumption. by apply Hret.
    + edestruct (refine_move st hd) as [Hret _]; try eassumption. by apply Hret.
Qed.

(** C13: every state a session of the code reaches is, through [abs], a
    state the spec's machine reaches from the abstraction of the boot
    state by ticks ([advance]) and turns: [update_direction] is a turn,
    a tick that returns is an [advance], and [key] changes nothing. *)
Theorem session_refines st : reachable st -> rtc spec_step (abs boot_state) (abs st).
Proof.
  induction 1 as [st Hb | st st' Hr IH Hs].
  - rewrite boot_eq in Hb. injection Hb as <-. apply rtc_refl.
  - destruct Hs as [st d | st st' Hu | st k].
    + eapply rtc_r; [exact IH |]. rewrite abs_update_direction. apply spec_turn.
    + eapply rtc_r; [exact IH |]. apply spec_advance. by apply reachable_tick_advance.
    + by rewrite key_noop.
Qed.

Lemma session_refines_witness :
  reachable after_one_tick /\ rtc spec_step (abs boot_state) (abs after_one_tick).
Proof.
  split; [apply reachable_after_one_tick | exact (session_refines _ reachable_after_one_tick)].
Defined.

(** C16: with no input the game ends, and no later than the wall allows.
    From every reachable state, some number of ticks [n], at least one and
    at most the head's [wall_distance] in its direction, ends the game
    with ["Game Over!"]: each tick either ends it (wall or self
    collision) or moves the head one block towards the wall, never eats
    and never hangs in [spawn_food]. *)
Theorem game_ends_without_input st hd :
  reachable st -> snake st !! 0%nat = Some hd ->
  exists n, (1 <= n <= Z.to_nat (wall_distance (direction st) hd))%nat /\
    ticks n st = panic_game_over.
Proof. intros Hr Hhd. eapply ticks_end_game; [by apply session_inv_reachable | exact Hhd | done]. Qed.

(** From the boot state, heading right from column 40: the game ends
    within twenty ticks. *)
Lemma game_ends_without_input_witness :
  exists n, (1 <= n <= 20)%nat /\ ticks n boot_state = panic_game_over.
Proof.
  destruct (game_ends_without_input boot_state (12, 40)) as (n & Hn & Ht);
    [apply reachable_boot, boot_eq | concrete |].
  exists n. split; [| exact Ht].
  assert (Z.to_nat (wall_distance (direction boot_state) (12, 40)) = 20%nat) as Hd by concrete.
  lia.
Defined.
