(* ===== verification/Kernel.v ===== *)
(** * The kernel loop of [src/src/main.rs] and [draw_snake] of
    [src/src/lib.rs]

    [_start] (main.rs lines 12-50) builds the game ([boot]), zeroes a raw
    buffer of [SCREEN_SIZE = ROWS * COLS * BLOCK_SIZE * BLOCK_SIZE * 4 =
    32000] bytes, then loops forever.  One iteration ([loop_body]):
    - if the slot [LAST_KEY] holds a key, empty it and pass the key to
      [GameState::key];
    - draw the food: four 4-byte writes [buffer[idx..idx + 4]
      .copy_from_slice(&[0xff, 0x00, 0x00, 0xff])], each a slice access
      that panics when [idx + 4] passes the end of the buffer;
    - [kernel.draw_snake(buffer)]: one [plot('*', col, row, ...)] per
      active segment (lib.rs lines 152-170).
    The VGA library's [plot] is an event of the iteration's trace.  The
    loop never calls [update] or [update_direction], and nothing else
    writes [LAST_KEY]; the spec's interrupt context that would write it is
    the event [KeyPress] of [kstep].

    The buffer is the VGA text memory behind [0xb8000], where [plot]
    writes 2 bytes per cell; [food_misplaced] compares the bytes the food
    block changes with the cell [plot] would use. *)

From S2P Require Import Prelude Direction Grid State Food Engine Session.
From Stdlib Require Import Ascii.

Local Open Scope Z_scope.
Import GameState.

(** * [draw_snake] *)

(** The colours of the VGA library the code uses. *)
Inductive Color : Type := Black | LightGreen | Red.

Definition COLOR_BACKGROUND : Color := Black.
Definition COLOR_SNAKE : Color := LightGreen.
Definition COLOR_FOOD : Color := Red.

(** A call [plot(c, col, row, ColorCode::new(fg, bg))]. *)
Record plot_event : Type := Plot {
  plot_char : Ascii.ascii;
  plot_col : Z;
  plot_row : Z;
  plot_color : Color * Color
}.

(** [GameState::draw_snake]: the first [length] cells of the array. *)
Definition draw_snake (st : GameState.t) : list plot_event :=
  map (fun '(row, col) => Plot "*"%char col row (COLOR_SNAKE, COLOR_BACKGROUND))
    (take (Z.to_nat (length st)) (snake st)).

(** * The raw buffer of [_start] *)

Definition SCREEN_SIZE : Z := ROWS * COLS * BLOCK_SIZE * BLOCK_SIZE * 4.

(** [buffer[idx..idx + 4].copy_from_slice(bytes)]. *)
Definition copy_from_slice (buffer : list Z) (idx : Z) (bytes : list Z) : outcome (list Z) :=
  if (0 <=? idx) && (idx + 4 <=? Z.of_nat (base.length buffer)) then
    Ret (take (Z.to_nat idx) buffer ++ bytes ++ drop (Z.to_nat (idx + 4)) buffer)
  else Panic "range end index out of range for slice".

Definition FOOD_PIXEL : list Z := [255; 0; 0; 255].

(** The indices [food_start_idx + (i * COLS + j) * 4] of the two nested
    [for] loops over [0..BLOCK_SIZE], in the order they run. *)
Definition food_indices (food_start_idx : Z) : list Z :=
  flat_map (fun i => map (fun j => food_start_idx + (i * COLS + j) * 4) (range 0 BLOCK_SIZE))
    (range 0 BLOCK_SIZE).

Fixpoint write_pixels (buffer : list Z) (idxs : list Z) : outcome (list Z) :=
  match idxs with
  | [] => Ret buffer
  | idx :: idxs' =>
      buffer ← copy_from_slice buffer idx FOOD_PIXEL;
      write_pixels buffer idxs'
  end.

(** The food block of one iteration. *)
Definition draw_food (buffer : list Z) (food : pos) : outcome (list Z) :=
  let '(food_row, food_col) := food in
  let food_start_idx := (food_row * COLS + food_col) * BLOCK_SIZE * BLOCK_SIZE * 4 in
  write_pixels buffer (food_indices food_start_idx).

(** The VGA text memory behind [0xb8000], as the library
    [pluggable_interrupt_os] drives it: [BUFFER_HEIGHT = 25] rows of
    [BUFFER_WIDTH = 80] cells, two bytes per cell (the character, then
    its colour), 4000 bytes.  [plot(c, col, row, ...)] writes the cell
    [row * BUFFER_WIDTH + col]. *)
Definition TEXT_BYTES : Z := ROWS * COLS * 2.

Definition text_cell (byte : Z) : Z := byte / 2.

Definition plot_cell (p : pos) : Z := p.1 * COLS + p.2.

(** * The loop *)

Record kernel_state : Type := KernelState {
  kernel : GameState.t;
  last_key : option DecodedKey;     (** [LAST_KEY: AtomicCell<Option<DecodedKey>>] *)
  buffer : list Z                   (** the [SCREEN_SIZE] bytes at [0xb8000] *)
}.

(** The start of [_start]: the game, an empty key slot, a zeroed buffer. *)
Definition start : outcome kernel_state :=
  kernel ← boot;
  Ret (KernelState kernel None (replicate (Z.to_nat SCREEN_SIZE) 0)).

(** One iteration of [loop { ... }]. *)
Definition loop_body (ks : kernel_state) : outcome (kernel_state * list plot_event) :=
  let ks := match last_key ks with
            | Some k => KernelState (key (kernel ks) k) None (buffer ks)
            | None => ks
            end in
  buffer ← draw_food (buffer ks) (food (kernel ks));
  Ret (KernelState (kernel ks) (last_key ks) buffer, draw_snake (kernel ks)).

(** What can happen to the kernel: an iteration of its loop, or a key
    stored into [LAST_KEY] by an interrupt handler. *)
Inductive kevent : Type :=
| Tick
| KeyPress (k : DecodedKey).

Definition kstep (ks : kernel_state) (e : kevent) : outcome (kernel_state * list plot_event) :=
  match e with
  | Tick => loop_body ks
  | KeyPress k => Ret (KernelState (kernel ks) (Some k) (buffer ks), [])
  end.

(** A run of the kernel over a sequence of events, with the plots of all
    iterations in order. *)
Fixpoint run (ks : kernel_state) (es : list kevent) : outcome (kernel_state * list plot_event) :=
  match es with
  | [] => Ret (ks, [])
  | e :: es' =>
      '(ks, plots) ← kstep ks e;
      '(ks, plots') ← run ks es';
      Ret (ks, plots ++ plots')
  end.

(** * The food block and the buffer bounds *)

Definition in_buffer (len : nat) (idx : Z) : Prop := 0 <= idx /\ idx + 4 <= Z.of_nat len.

Lemma copy_from_slice_in buffer idx bytes :
  in_buffer (base.length buffer) idx -> base.length bytes = 4%nat ->
  exists b, copy_from_slice buffer idx bytes = Ret b /\ base.length b = base.length buffer.
Proof.
  intros [H0 H4] Hb. unfold copy_from_slice.
  destruct (Z.leb_spec 0 idx), (Z.leb_spec (idx + 4) (Z.of_nat (base.length buffer))); try lia.
  eexists. split; [reflexivity |].
  rewrite !length_app, length_take, length_drop, Hb. lia.
Qed.

Lemma copy_from_slice_out buffer idx bytes :
  ~ in_buffer (base.length buffer) idx ->
  copy_from_slice buffer idx bytes = Panic "range end index out of range for slice".
Proof.
  unfold in_buffer, copy_from_slice. intros Hn.
  destruct (Z.leb_spec 0 idx), (Z.leb_spec (idx + 4) (Z.of_nat (base.length buffer)));
    simpl; [lia | reflexivity ..].
Qed.

(** The writes all succeed when every index is in the buffer, and the
    first index outside makes the loop panic. *)
Lemma write_pixels_cases buffer idxs :
  (Forall (in_buffer (base.length buffer)) idxs /\
   exists b, write_pixels buffer idxs = Ret b /\ base.length b = base.length buffer) \/
  (~ Forall (in_buffer (base.length buffer)) idxs /\
   write_pixels buffer idxs = Panic "range end index out of range for slice").
Proof.
  revert buffer. induction idxs as [|idx idxs IH]; intros buffer; simpl.
  - left. eauto.
  - destruct (decide (in_buffer (base.length buffer) idx)) as [Hin | Hout].
    + destruct (copy_from_slice_in buffer idx FOOD_PIXEL Hin eq_refl) as (b & -> & Hb).
      cbn [mbind outcome_bind].
      destruct (IH b) as [[Hall (b' & Hw & Hb')] | [Hnot Hpanic]]; rewrite Hb in *.
      * left. split; [by constructor |]. exists b'. split; [done | lia].
      * right. split; [| done]. intros Hf. apply Forall_cons in Hf. tauto.
    + rewrite copy_from_slice_out by done. right. rewrite Forall_cons. tauto.
Qed.

(** [copy_from_slice] changes only the four bytes it targets. *)
Lemma copy_from_slice_changed buffer idx bytes b i :
  base.length bytes = 4%nat -> copy_from_slice buffer idx bytes = Ret b ->
  b !! i <> buffer !! i -> idx <= Z.of_nat i < idx + 4.
Proof.
  intros Hb. unfold copy_from_slice.
  destruct (Z.leb_spec 0 idx), (Z.leb_spec (idx + 4) (Z.of_nat (base.length buffer)));
    cbn [andb]; [intros [= <-] | discriminate ..].
  intros Hne. destruct (decide (Z.of_nat i < idx)) as [Hlt | Hge].
  - rewrite lookup_app_l, lookup_take_lt in Hne by (rewrite ?length_take; lia). by destruct Hne.
  - split; [lia |]. destruct (decide (Z.of_nat i < idx + 4)); [done | exfalso].
    rewrite lookup_app_r, lookup_app_r, lookup_drop in Hne by (rewrite ?length_take; lia).
    rewrite length_take, Hb in Hne. apply Hne. f_equal. lia.
Qed.

(** The food loop changes only bytes of the four [4]-byte pixels. *)
Lemma write_pixels_changed buffer idxs b i :
  write_pixels buffer idxs = Ret b -> b !! i <> buffer !! i ->
  Exists (fun idx => idx <= Z.of_nat i < idx + 4) idxs.
Proof.
  revert buffer. induction idxs as [|idx idxs IH]; intros buffer; simpl; [by intros [= ->] |].
  destruct (copy_from_slice buffer idx FOOD_PIXEL) as [mid | |] eqn:Hc; cbn [mbind outcome_bind];
    [| discriminate ..].
  intros Hw Hne. destruct (decide (mid !! i = buffer !! i)) as [Heq | Hne'].
  - right. apply (IH mid); [done | by rewrite Heq].
  - left. by apply (copy_from_slice_changed buffer idx FOOD_PIXEL mid).
Qed.

Lemma food_indices_eq s : food_indices s = [s; s + 4; s + 4 * COLS; s + 4 * COLS + 4].
Proof.
  unfold food_indices, range, BLOCK_SIZE, COLS. change (Z.to_nat 0) with 0%nat. simpl.
  repeat first [reflexivity | lia | apply (f_equal2 cons)].
Qed.

Definition last_row_corner (p : pos) : Prop := p.1 = ROWS - 1 /\ COLS - 20 <= p.2.

#[export] Instance last_row_corner_dec p : Decision (last_row_corner p).
Proof. unfold last_row_corner. apply _. Defined.

(** The food block is drawn, keeping the buffer's size, unless the cell is
    in the last-row corner, where the drawing panics. *)
Lemma draw_food_cases buffer p :
  base.length buffer = Z.to_nat SCREEN_SIZE -> in_grid p ->
  (~ last_row_corner p /\ exists b, draw_food buffer p = Ret b /\ base.length b = base.length buffer) \/
  (last_row_corner p /\ draw_food buffer p = Panic "range end index out of range for slice").
Proof.
  destruct p as [r c]. unfold draw_food. cbv beta iota zeta. rewrite food_indices_eq.
  unfold last_row_corner, in_grid, SCREEN_SIZE, ROWS, BLOCK_SIZE. cbn [fst snd]. intros Hlen Hg.
  set (s := (r * COLS + c) * 2 * 2 * 4).
  assert (Hiff : Forall (in_buffer (base.length buffer)) [s; s + 4; s + 4 * COLS; s + 4 * COLS + 4]
                 <-> ~ (r = 25 - 1 /\ COLS - 20 <= c)).
  { rewrite !Forall_cons, Forall_nil. unfold in_buffer, s. unfold COLS in *. rewrite Hlen. lia. }
  destruct (write_pixels_cases buffer [s; s + 4; s + 4 * COLS; s + 4 * COLS + 4])
    as [[Hall Hok] | [Hnot ->]]; [left | right]; split; try done.
  - by apply Hiff.
  - destruct (decide (r = 25 - 1 /\ COLS - 20 <= c)); [done |]. exfalso. by apply Hnot, Hiff.
Qed.

(** C20: drawing the food panics exactly for the twenty cells at the end of
    the last row ([row = 24], [col >= 60]): the code gives each cell 16
    bytes and each block row [4 * COLS] bytes, so the last 2x2 block of
    those cells ends past the 32000 bytes of the buffer.  Every other cell
    of the grid is drawn without panic. *)
Theorem draw_food_bounds buffer p :
  base.length buffer = Z.to_nat SCREEN_SIZE -> in_grid p ->
  (draw_food buffer p = Panic "range end index out of range for slice" <->
     p.1 = ROWS - 1 /\ COLS - 20 <= p.2) /\
  (forall msg, draw_food buffer p = Panic msg -> msg = "range end index out of range for slice").
Proof.
  intros Hlen Hg.
  destruct (draw_food_cases buffer p Hlen Hg) as [[Hn (b & -> & _)] | [Hc ->]].
  - split; [split; [discriminate | intros Hc; by destruct Hn] | discriminate].
  - split; [split; [done | done] | by intros msg [= <-]].
Qed.

(** The food block of [p] changes only bytes from [16 * plot_cell p] on. *)
Lemma draw_food_changed buffer p b i :
  draw_food buffer p = Ret b -> b !! i <> buffer !! i -> 16 * plot_cell p <= Z.of_nat i.
Proof.
  destruct p as [r c]. unfold draw_food, plot_cell. cbn [fst snd].
  rewrite food_indices_eq. intros Hw Hne.
  pose proof (write_pixels_changed _ _ _ _ Hw Hne) as Hex. unfold COLS, BLOCK_SIZE in *.
  repeat (apply Exists_cons in Hex as [? | Hex]); [lia .. | by apply Exists_nil in Hex].
Qed.

(** A byte at or past [16 * k] lies in a text cell at or past [8 * k]. *)
Lemma text_cell_lower k i : 16 * k <= i -> 8 * k <= text_cell i.
Proof.
  unfold text_cell. intros H.
  pose proof (Z.div_mod i 2 ltac:(lia)). pose proof (Z.mod_pos_bound i 2 ltac:(lia)). lia.
Qed.

(** C21: the food is not drawn where [plot] would draw its cell.  The
    code gives a cell [BLOCK_SIZE * BLOCK_SIZE * 4 = 16] bytes and a
    block row [4 * COLS] bytes, while the text memory behind [0xb8000]
    gives a cell 2 bytes: every byte the food block changes lies in a
    text cell past [8 * plot_cell p], so never in the cell [plot] uses for
    [p] (unless [p = (0, 0)]), and when [16 * plot_cell p] reaches the
    4000 bytes of text memory, past the end of the screen. *)
Theorem food_misplaced buffer p b i :
  in_grid p -> draw_food buffer p = Ret b -> b !! i <> buffer !! i ->
  8 * plot_cell p <= text_cell (Z.of_nat i) /\
  (p <> (0, 0) -> text_cell (Z.of_nat i) <> plot_cell p) /\
  (TEXT_BYTES <= 16 * plot_cell p -> TEXT_BYTES <= Z.of_nat i).
Proof.
  intros Hg Hw Hne. pose proof (draw_food_changed _ _ _ _ Hw Hne) as Hi.
  pose proof (text_cell_lower _ _ Hi). destruct p as [r c].
  unfold in_grid, plot_cell, TEXT_BYTES, ROWS, COLS in *. cbn [fst snd] in *.
  split; [lia | split; [intros Hp Heq | lia]].
  assert (r * 80 + c = 0) by lia. apply Hp. f_equal; lia.
Qed.

(** * The loop never changes the game *)

Definition ticks_plots (st : GameState.t) (es : list kevent) : list plot_event :=
  concat (map (fun e => match e with Tick => draw_snake st | KeyPress _ => [] end) es).

Lemma loop_body_frozen ks :
  kernel ks = boot_state -> base.length (buffer ks) = Z.to_nat SCREEN_SIZE ->
  exists b, loop_body ks = Ret (KernelState boot_state None b, draw_snake boot_state) /\
    base.length b = base.length (buffer ks).
Proof.
  intros Hk Hlen. unfold loop_body.
  assert (Hks : kernel (match last_key ks with
                        | Some k => KernelState (key (kernel ks) k) None (buffer ks)
                        | None => ks end) = boot_state /\
                last_key (match last_key ks with
                          | Some k => KernelState (key (kernel ks) k) None (buffer ks)
                          | None => ks end) = None /\
                buffer (match last_key ks with
                        | Some k => KernelState (key (kernel ks) k) None (buffer ks)
                        | None => ks end) = buffer ks)
    by (destruct (last_key ks) eqn:E; simpl; rewrite ?key_noop; auto).
  destruct Hks as (-> & -> & ->).
  destruct (draw_food_cases (buffer ks) (food boot_state)) as [[_ (b & -> & Hb)] | [Hc _]];
    [done | unfold in_grid, ROWS, COLS; simpl; lia | eauto |].
  unfold last_row_corner, ROWS in Hc. simpl in Hc. lia.
Qed.

Lemma run_frozen ks es :
  kernel ks = boot_state -> base.length (buffer ks) = Z.to_nat SCREEN_SIZE ->
  exists ks', run ks es = Ret (ks', ticks_plots boot_state es) /\
    kernel ks' = boot_state /\ base.length (buffer ks') = Z.to_nat SCREEN_SIZE.
Proof.
  revert ks. induction es as [|e es IH]; intros ks Hk Hlen; [by exists ks |].
  assert (exists ks1 pl, kstep ks e = Ret (ks1, pl) /\
            pl = match e with Tick => draw_snake boot_state | KeyPress _ => [] end /\
            kernel ks1 = boot_state /\ base.length (buffer ks1) = Z.to_nat SCREEN_SIZE)
    as (ks1 & pl & Hstep & -> & Hk1 & Hl1).
  { destruct e as [|k]; simpl.
    - destruct (loop_body_frozen ks Hk Hlen) as (b & -> & Hb). do 2 eexists. split; [done |].
      simpl. rewrite Hb. auto.
    - do 2 eexists. split; [done |]. auto. }
  destruct (IH ks1 Hk1 Hl1) as (ks' & Hrun & Hk' & Hl').
  exists ks'. simpl. rewrite Hstep. cbn [mbind outcome_bind]. rewrite Hrun. auto.
Qed.

Lemma start_eq : start = Ret (KernelState boot_state None (replicate (Z.to_nat SCREEN_SIZE) 0)).
Proof. unfold start. rewrite boot_eq. reflexivity. Qed.

(** [start] returns the boot state, an empty slot
    ([AtomicCell::new(None)]) and a buffer of [SCREEN_SIZE] bytes.  The
    equations go through projections: the kernel must not unfold the
    32000 zeroes. *)
Lemma start_shape ks :
  start = Ret ks ->
  kernel ks = boot_state /\ last_key ks = None /\ base.length (buffer ks) = Z.to_nat SCREEN_SIZE /\
  buffer ks = replicate (Z.to_nat SCREEN_SIZE) 0.
Proof.
  unfold start. rewrite boot_eq. cbn [mbind outcome_bind]. intros H.
  pose proof (f_equal (fun o => match o with Ret ks => kernel ks | _ => new end) H) as Hk.
  pose proof (f_equal (fun o => match o with Ret ks => last_key ks | _ => None end) H) as Hl.
  pose proof (f_equal (fun o => match o with Ret ks => base.length (buffer ks) | _ => 0%nat end) H)
    as Hb.
  pose proof (f_equal (fun o => match o with Ret ks => buffer ks | _ => [] end) H) as Hz.
  cbn [kernel last_key buffer] in Hk, Hl, Hb, Hz. rewrite length_replicate in Hb. auto.
Qed.

(** C15: the kernel never plays.  Whatever keys arrive in [LAST_KEY] and
    however many iterations run, the loop never panics, the game state
    stays the boot state ([key] ignores every key and the loop calls no
    other method), and every iteration plots the same ten segments. *)
Theorem kernel_never_advances es :
  exists ks, (ks0 ← start; run ks0 es) = Ret (ks, ticks_plots boot_state es) /\
    kernel ks = boot_state.
Proof.
  rewrite start_eq. cbn [mbind outcome_bind].
  destruct (run_frozen (KernelState boot_state None (replicate (Z.to_nat SCREEN_SIZE) 0)) es)
    as (ks & Hrun & Hk & _); [done | apply length_replicate |].
  eauto.
Qed.

(** C22: every cell [draw_snake] plots in a reachable state is on the
    80 x 25 text screen ([COLS = BUFFER_WIDTH], [ROWS = BUFFER_HEIGHT]),
    and it plots exactly [length] cells. *)
Theorem draw_snake_on_screen st :
  reachable st ->
  base.length (draw_snake st) = Z.to_nat (length st) /\
  Forall (fun e => 0 <= plot_row e < ROWS /\ 0 <= plot_col e < COLS) (draw_snake st).
Proof.
  intros ((Hsize & _) & Hcells & _ & _ & Hlen)%session_inv_reachable.
  unfold draw_snake. rewrite length_map, length_take, Hlen. split.
  - rewrite MAX_SNAKE_LENGTH_eq in Hsize. lia.
  - apply Forall_map, Forall_take. eapply Forall_impl; [exact Hcells |].
    intros [r c] [[Hr Hc] _]. simpl in *. lia.
Qed.

(** * The theorems at concrete inputs *)

Lemma draw_food_bounds_witness :
  draw_food (replicate (Z.to_nat SCREEN_SIZE) 0) (24, 79) = Panic "range end index out of range for slice".
Proof.
  assert (H1 : base.length (replicate (Z.to_nat SCREEN_SIZE) 0) = Z.to_nat SCREEN_SIZE)
    by apply length_replicate.
  assert (H2 : in_grid (24, 79)) by (unfold in_grid, ROWS, COLS; simpl; lia).
  apply (proj2 (proj1 (draw_food_bounds _ _ H1 H2))). unfold ROWS, COLS; simpl; lia.
Defined.

Lemma draw_snake_on_screen_witness :
  reachable after_one_tick /\ base.length (draw_snake after_one_tick) = 10%nat.
Proof.
  split; [apply reachable_after_one_tick |].
  exact (proj1 (draw_snake_on_screen _ reachable_after_one_tick)).
Defined.

(** The boot food [(1, 1)]: its first pixel lands in text cell 648 (row 8,
    column 8 of the screen), not in the cell 81 where [plot] draws
    [(1, 1)]. *)
Lemma food_misplaced_witness : text_cell 1296 <> plot_cell (1, 1) /\ 8 * plot_cell (1, 1) <= text_cell 1296.
Proof.
  destruct (draw_food (replicate 2000 0) (1, 1)) as [b | msg |] eqn:E;
    [| vm_compute in E; discriminate ..].
  assert (Hne : b !! 1296%nat <> replicate 2000 0 !! 1296%nat)
    by (vm_compute in E; injection E as <-; vm_compute; discriminate).
  destruct (food_misplaced (replicate 2000 0) (1, 1) b 1296 ltac:(concrete) E Hne) as (H8 & Hp & _).
  split; [apply Hp; discriminate | exact H8].
Defined.
