(* ===== verification/Start.v ===== *)
(** * [_start] of [src/src/main.rs] as an interaction tree

    [_start] never returns ([-> !]) and talks to its environment in
    three ways: the two accesses of the slot [LAST_KEY]
    ([AtomicCell::load] and [AtomicCell::store], lines 27-28), the
    [plot] calls of [draw_snake], and a panic.  [_start] below is the
    code's body as an [itree startE void]: [start] (lines 16-25), then
    [ITree.iter] over the iteration of lines 26-49, whose state is the
    game and the buffer, the two variables the loop mutates.

    The slot is given meaning by the handler [h_irq] into a state monad.
    Its state holds the slot, the schedule of the spec's interrupt
    context (section 5: a handler that stores a key into the slot), and
    two logs: the keys the interrupt stored and the keys the loop took.
    The interrupt may fire just before each access of the slot: one that
    fires anywhere else between two accesses is the same, for the loop,
    as one that fires just before the second.  [plot] and the panic stay
    events of the interpreted tree, of type [screenE].

    The lemma [iteration_eq] gives one iteration under any schedule: the
    drain of the slot ([drain]), then the food block and the snake
    ([screen_part]).  The theorem [start_plots_forever] shows that, under
    any interrupt schedule, [_start] never panics and plots the ten
    segments of the boot state forever: the loop calls neither [update]
    nor [update_direction], and [key] ignores every key.  [LAST_KEY] is a
    local of [_start] that no handler of the code can reach, so the code
    as it is runs the empty schedule, one case of the theorem. *)

From ITree Require Import ITree ITreeFacts Events.State Events.StateFacts.
From S2P Require Import Prelude Direction Grid State Food Engine Session Kernel.
From Stdlib Require Import Ascii.

Local Open Scope Z_scope.
Import GameState.

(** stdpp's monad classes for [itree], so that trees read with the same
    [x ← m; k] as the rest of the development (ITree's own notations
    clash with stdpp's at level 61). *)
#[export] Instance itree_ret {E} : MRet (itree E) := fun _ a => ITreeDefinition.Ret a.
#[export] Instance itree_bind {E} : MBind (itree E) := fun _ _ k t => ITree.bind t k.

(** * The events of [_start] *)

Variant startE : Type -> Type :=
| Load : startE (option DecodedKey)              (** [LAST_KEY.load()] *)
| Store : option DecodedKey -> startE unit       (** [LAST_KEY.store(v)] *)
| PlotE : plot_event -> startE unit              (** [plot(c, col, row, color)] *)
| ClearScreen : startE unit                      (** [clear_screen()] *)
| Abort : string -> startE void.                 (** [panic!(msg)] *)

(** What is left once the slot has been given meaning: the screen and
    the panic. *)
Variant screenE : Type -> Type :=
| Drawn : plot_event -> screenE unit
| Cleared : screenE unit
| Halt : string -> screenE void.

(** A panic ends the tree: the answer to [Abort] is [void]. *)
Definition abort {A} (msg : string) : itree startE A :=
  ITree.bind (ITree.trigger (Abort msg)) (fun v : void => match v with end).

Definition halt {A} (msg : string) : itree screenE A :=
  ITree.bind (ITree.trigger (Halt msg)) (fun v : void => match v with end).

(** The effects of a computation of the engine: it returns, panics, or
    runs forever. *)
Definition lift_outcome {A} (o : outcome A) : itree startE A :=
  match o with
  | Ret a => mret a
  | Panic msg => abort msg
  | Diverge => ITree.spin
  end.

(** * The code *)

(** [for &(row, col) in self.snake.iter().take(self.length) { plot(...) }]
    of [draw_snake], one event per call. *)
Fixpoint plot_all (pl : list plot_event) : itree startE unit :=
  match pl with
  | [] => mret tt
  | p :: pl' => ITree.trigger (PlotE p);; plot_all pl'
  end.

(** One iteration of [loop { ... }] (main.rs lines 27-46). *)
Definition iteration (s : GameState.t * list Z) : itree startE (GameState.t * list Z) :=
  let '(kernel, buffer) := s in
  last ← ITree.trigger Load;
  kernel ← match last with
           | Some k => ITree.trigger (Store None);; mret (key kernel k)
           | None => mret kernel
           end;
  buffer ← lift_outcome (draw_food buffer (food kernel));
  plot_all (draw_snake kernel);;
  mret (kernel, buffer).

(** [loop { ... }] never breaks: every iteration continues. *)
Definition loop_step (s : GameState.t * list Z) : itree startE ((GameState.t * list Z) + void) :=
  s' ← iteration s; mret (inl s').

(** [_start]: boot, zero the buffer, loop forever. *)
Definition _start : itree startE void :=
  ks ← lift_outcome start;
  ITree.iter loop_step (kernel ks, buffer ks).

(** [fn startup() { clear_screen(); }] (lines 52-54).  Nothing calls it:
    [_start] above has no [ClearScreen] event. *)
Definition startup : itree startE unit := ITree.trigger ClearScreen.

(** * The slot and the interrupt context *)

Record irq_state : Type := IrqState {
  slot : option DecodedKey;            (** the value in [LAST_KEY] *)
  pending : list (option DecodedKey);  (** per access: the key the interrupt stores first, if any *)
  pressed : list DecodedKey;           (** the keys the interrupt stored, in order *)
  taken : list DecodedKey              (** the keys the loop loaded, in order *)
}.

(** The interrupt context runs, or not, before an access of the slot. *)
Definition interrupt (s : irq_state) : irq_state :=
  match pending s with
  | Some k :: ps => IrqState (Some k) ps (pressed s ++ [k]) (taken s)
  | None :: ps => IrqState (slot s) ps (pressed s) (taken s)
  | [] => s
  end.

Definition h_irq : startE ~> Monads.stateT irq_state (itree screenE) :=
  fun _ e s =>
    match e in startE T return itree screenE (irq_state * T) with
    | Load =>
        let s := interrupt s in
        mret (IrqState (slot s) (pending s) (pressed s) (taken s ++ option_list (slot s)), slot s)
    | Store v =>
        let s := interrupt s in
        mret (IrqState v (pending s) (pressed s) (taken s), tt)
    | PlotE p => ITree.trigger (Drawn p);; mret (s, tt)
    | ClearScreen => ITree.trigger Cleared;; mret (s, tt)
    | Abort msg => halt msg
    end.

(** * What the theorems compare [_start] with *)

Fixpoint draw_all (pl : list plot_event) : itree screenE unit :=
  match pl with
  | [] => mret tt
  | p :: pl' => ITree.trigger (Drawn p);; draw_all pl'
  end.

(** The same plots, forever. *)
Definition plot_forever (pl : list plot_event) : itree screenE void :=
  ITree.iter (fun _ : unit => draw_all pl;; mret (inl tt)) tt.

(** Two trees with the same screen events and panics, up to [Tau]
    steps, whatever they return ([_start] returns nothing). *)
Definition same_screen {A B} (t1 : itree screenE A) (t2 : itree screenE B) : Prop :=
  eutt (fun _ _ => True) t1 t2.

(** * One iteration under [h_irq] *)

(** The slot accesses of an iteration: the [load], and the [store(None)]
    when the load found a key, each after the interrupt's turn. *)
Definition drain (st : GameState.t) (s : irq_state) : GameState.t * irq_state :=
  let s1 := interrupt s in
  let s1' := IrqState (slot s1) (pending s1) (pressed s1) (taken s1 ++ option_list (slot s1)) in
  match slot s1 with
  | Some k => let s2 := interrupt s1' in (key st k, IrqState None (pending s2) (pressed s2) (taken s2))
  | None => (st, s1')
  end.

(** The rest of the iteration: the food block and the snake. *)
Definition screen_part (st : GameState.t) (buf : list Z) (s : irq_state)
    : itree screenE (irq_state * (GameState.t * list Z)) :=
  match draw_food buf (food st) with
  | Ret b => draw_all (draw_snake st);; mret (s, (st, b))
  | Panic msg => halt msg
  | Diverge => ITree.spin
  end.

Ltac itree_unfold := unfold mbind, mret, itree_bind, itree_ret.

(** Run the handler on the event at the head of the goal. *)
Ltac handle := unfold h_irq; cbv beta iota zeta; itree_unfold.

Lemma interp_plot_all pl s :
  interp_state h_irq (plot_all pl) s ≈ (draw_all pl;; mret (s, tt)).
Proof.
  induction pl as [|p pl IH]; cbn [plot_all draw_all]; itree_unfold.
  - rewrite interp_state_ret, bind_ret_l. reflexivity.
  - rewrite interp_state_bind, interp_state_trigger. handle.
    rewrite !bind_bind. apply eutt_clo_bind with (UU := eq); [reflexivity |].
    intros [] _ <-. rewrite bind_ret_l. cbn. apply IH.
Qed.

Lemma halt_bind {A B} msg (k : A -> itree screenE B) :
  ITree.bind (halt msg) k ≈ halt msg.
Proof.
  unfold halt. rewrite bind_bind. apply eutt_clo_bind with (UU := eq); [reflexivity |].
  intros [].
Qed.

Lemma interp_abort {A} msg s : interp_state h_irq (@abort A msg) s ≈ halt msg.
Proof.
  unfold abort. rewrite interp_state_bind, interp_state_trigger. handle.
  apply halt_bind.
Qed.

Lemma write_pixels_total buffer idxs : write_pixels buffer idxs <> Diverge.
Proof.
  revert buffer. induction idxs as [|idx idxs IH]; intros buffer; simpl; [discriminate |].
  unfold copy_from_slice. destruct (_ && _); [apply IH | discriminate].
Qed.

Lemma draw_food_total buffer p : draw_food buffer p <> Diverge.
Proof. destruct p. apply write_pixels_total. Qed.

Lemma interp_draw_food st buf s (k : list Z -> itree startE (GameState.t * list Z)) :
  interp_state h_irq (ITree.bind (lift_outcome (draw_food buf (food st))) k) s ≈
  match draw_food buf (food st) with
  | Ret b => interp_state h_irq (k b) s
  | Panic msg => halt msg
  | Diverge => ITree.spin
  end.
Proof.
  pose proof (draw_food_total buf (food st)).
  destruct (draw_food buf (food st)) as [b | msg |]; [| | done]; simpl.
  - itree_unfold. rewrite bind_ret_l. reflexivity.
  - rewrite interp_state_bind, interp_abort. apply halt_bind.
Qed.

(** Every iteration, under any schedule of the interrupt: the drain,
    then the food block and the snake. *)
Lemma iteration_eq st buf s :
  interp_state h_irq (iteration (st, buf)) s ≈
  let '(st', s') := drain st s in screen_part st' buf s'.
Proof.
  unfold iteration, drain. itree_unfold.
  rewrite interp_state_bind, interp_state_trigger. handle. rewrite bind_ret_l. cbn [fst snd].
  rewrite interp_state_bind.
  destruct (slot (interrupt s)) as [k |]; cbn [fst snd]; itree_unfold.
  - rewrite interp_state_bind, interp_state_trigger. handle.
    rewrite !bind_ret_l. cbn [fst snd]. rewrite interp_state_ret, bind_ret_l. cbn [fst snd].
    rewrite interp_draw_food. unfold screen_part.
    destruct (draw_food buf (food (key st k))); try reflexivity.
    rewrite interp_state_bind, interp_plot_all. itree_unfold. rewrite bind_bind.
    apply eutt_clo_bind with (UU := eq); [reflexivity |]. intros [] _ <-.
    rewrite bind_ret_l. cbn [fst snd]. rewrite interp_state_ret. reflexivity.
  - rewrite interp_state_ret, bind_ret_l. cbn [fst snd].
    rewrite interp_draw_food. unfold screen_part.
    destruct (draw_food buf (food st)); try reflexivity.
    rewrite interp_state_bind, interp_plot_all. itree_unfold. rewrite bind_bind.
    apply eutt_clo_bind with (UU := eq); [reflexivity |]. intros [] _ <-.
    rewrite bind_ret_l. cbn [fst snd]. rewrite interp_state_ret. reflexivity.
Qed.

(** [key] ignores the key, so the drain never changes the game. *)
Lemma drain_kernel st s : (drain st s).1 = st.
Proof. unfold drain. destruct (slot (interrupt s)); simpl; [apply key_noop | done]. Qed.

(** An iteration on the boot state, under any schedule: the food block
    is drawn, the ten segments are plotted, and the game is unchanged. *)
Lemma iteration_boot buf s :
  base.length buf = Z.to_nat SCREEN_SIZE ->
  exists b s', (base.length b = base.length buf)%nat /\
    (interp_state h_irq (iteration (boot_state, buf)) s ≈
     (draw_all (draw_snake boot_state);; mret (s', (boot_state, b)))).
Proof.
  intros Hlen.
  pose proof (drain_kernel boot_state s) as Hd. destruct (drain boot_state s) as [st' s'] eqn:Hdr.
  simpl in Hd. subst st'.
  destruct (draw_food_cases buf (food boot_state) Hlen) as [[_ (b & Hf & Hb)] | [Hc _]].
  - unfold in_grid, ROWS, COLS. simpl. lia.
  - exists b, s'. split; [done |]. rewrite iteration_eq, Hdr. unfold screen_part. by rewrite Hf.
  - unfold last_row_corner, ROWS in Hc. simpl in Hc. lia.
Qed.

(** * The theorems on [_start] *)

(** C14: whatever keys the interrupt context stores, and whenever, the
    code's [_start] never panics and plots the ten segments of the boot
    state, again and again, forever: the loop calls neither [update] nor
    [update_direction], and [key] ignores every key. *)
Theorem start_plots_forever ps :
  same_screen (interp_state h_irq _start (IrqState None ps [] []))
    (plot_forever (draw_snake boot_state)).
Proof.
  unfold _start. pose proof start_shape as Hk.
  destruct start as [ks | msg |] eqn:Hs; [| by rewrite start_eq in Hs | by rewrite start_eq in Hs].
  destruct (Hk ks eq_refl) as (Hkb & _ & Hlen & _). clear Hk Hs.
  cbn [lift_outcome]. itree_unfold. unfold same_screen, plot_forever.
  rewrite interp_state_bind, interp_state_ret, bind_ret_l. cbn [fst snd].
  rewrite eutt_eq_interp_state_iter.
  unfold Basics.iter, MonadIter_stateT0, Basics.iter, MonadIter_itree.
  apply (eutt_iter' (fun si (_ : unit) =>
    si.2.1 = boot_state /\ base.length si.2.2 = Z.to_nat SCREEN_SIZE)); [| simpl; auto].
  intros [s [st buf]] [] [Hst Hb]. simpl in Hst, Hb. subst st.
  unfold loop_step. itree_unfold. cbn [fst snd bind ret Monad_itree].
  rewrite interp_state_bind.
  destruct (iteration_boot buf s Hb) as (b & s' & Hb' & ->). itree_unfold.
  rewrite !bind_bind. apply eutt_clo_bind with (UU := eq); [reflexivity |].
  intros [] _ <-. rewrite !bind_ret_l. cbn [fst snd]. rewrite interp_state_ret, bind_ret_l.
  apply eqit_Ret. constructor. simpl. split; [done | lia].
Qed.

