(* ===== verification/Screen.v ===== *)
(** * The screen: the food block and [draw_snake] write the same memory

    [_start] (main.rs line 22) takes the 32000 bytes at [0xb8000] as a
    mutable slice [buffer] and writes the food block into it.  The VGA
    library's [plot], called by [draw_snake], writes the same memory
    through its own static [Writer]: [0xb8000] is the VGA text memory,
    [BUFFER_HEIGHT = 25] rows of [BUFFER_WIDTH = 80] cells of two bytes,
    the character ([c as u8]) then the colour code
    ([ColorCode::new(fg, bg) = (bg as u8) << 4 | (fg as u8)]).  So the two
    writers alias.  [loop_body_shared] is one iteration of the loop with
    that aliasing made explicit: the plots of [Kernel.loop_body] are
    applied, in order, to the buffer the food block was written into.

    Theorems:
    - [shared_frame_snake]: after an iteration, every active segment's
      cell shows a light-green ['*']: [plot] runs after the food block and
      wins where the two meet.
    - [screen_never_shows_food]: from [start], after any number of
      iterations, no byte of the memory is the colour code of
      [COLOR_FOOD] on [COLOR_BACKGROUND], and the food's own cell is still
      blank: the food is never displayed.
    - [draw_snake_plot_panics]: the plots panic with the library's index
      message exactly when an active segment is off the screen. *)

From S2P Require Import Prelude Direction Grid State Food Engine Session Kernel.
From Stdlib Require Import Ascii.

Local Open Scope Z_scope.
Import GameState.

(** * The text memory as the VGA library writes it *)

(** [#[repr(u8)] pub enum Color { Black = 0, ..., Red = 4, ...,
    LightGreen = 10, ... }] of the library, on the three colours the code
    names. *)
Definition color_value (c : Color) : Z :=
  match c with
  | Black => 0
  | Red => 4
  | LightGreen => 10
  end.

(** [ColorCode::new(foreground, background)]. *)
Definition color_code (fg bg : Color) : Z :=
  Z.lor (Z.shiftl (color_value bg) 4) (color_value fg).

(** [c as u8]. *)
Definition char_byte (c : ascii) : Z := Z.of_nat (nat_of_ascii c).

(** [plot(c, col, row, color)]: [buffer.chars[row][col]] receives the
    character and the colour; the array index panics out of range. *)
Definition plot_mem (mem : list Z) (e : plot_event) : outcome (list Z) :=
  if bool_decide (0 <= plot_row e < ROWS /\ 0 <= plot_col e < COLS) then
    let i := 2 * plot_cell (plot_row e, plot_col e) in
    Ret (<[Z.to_nat (i + 1) := color_code (plot_color e).1 (plot_color e).2]>
          (<[Z.to_nat i := char_byte (plot_char e)]> mem))
  else Panic "index out of bounds".

(** The [plot] calls of one [draw_snake], in order. *)
Fixpoint plot_all_mem (mem : list Z) (pl : list plot_event) : outcome (list Z) :=
  match pl with
  | [] => Ret mem
  | e :: pl' => mem ← plot_mem mem e; plot_all_mem mem pl'
  end.

(** * The loop over the shared memory *)

(** One iteration of [loop { ... }] (main.rs lines 27-46) where [plot]
    writes the memory the slice [buffer] points to. *)
Definition loop_body_shared (ks : kernel_state) : outcome kernel_state :=
  '(ks', pl) ← loop_body ks;
  mem ← plot_all_mem (buffer ks') pl;
  Ret (KernelState (kernel ks') (last_key ks') mem).

(** [n] iterations of the loop. *)
Fixpoint frames (n : nat) (ks : kernel_state) : outcome kernel_state :=
  match n with
  | O => Ret ks
  | S n' => ks' ← loop_body_shared ks; frames n' ks'
  end.

(** * Which values a write leaves in memory *)

(** Every byte [m'] changes from [m] is one of [V]. *)
Definition writes_only (V : list Z) (m m' : list Z) : Prop :=
  forall i, m' !! i <> m !! i -> exists x, m' !! i = Some x /\ x ∈ V.

Lemma writes_only_refl V m : writes_only V m m.
Proof. by intros i []. Qed.

Lemma writes_only_trans V m1 m2 m3 :
  writes_only V m1 m2 -> writes_only V m2 m3 -> writes_only V m1 m3.
Proof.
  intros H12 H23 i Hne. destruct (decide (m3 !! i = m2 !! i)) as [Heq | Hne'].
  - rewrite Heq in Hne |- *. by apply H12.
  - by apply H23.
Qed.

Lemma writes_only_weaken V V' m m' : V ⊆ V' -> writes_only V m m' -> writes_only V' m m'.
Proof. intros HV H i Hne. destruct (H i Hne) as (x & ? & ?). eauto. Qed.

Lemma insert_writes_only V l j x : x ∈ V -> writes_only V l (<[j:=x]> l).
Proof.
  intros Hx i Hne. destruct (decide (i = j)) as [-> | Hij].
  - destruct (decide (j < base.length l)%nat).
    + rewrite list_lookup_insert_eq by done. eauto.
    + rewrite list_insert_ge in Hne by lia. done.
  - by rewrite list_lookup_insert_ne in Hne by done.
Qed.

#[export] Hint Resolve writes_only_refl insert_writes_only : snake.

Lemma copy_from_slice_writes buffer idx bytes b :
  base.length bytes = 4%nat -> copy_from_slice buffer idx bytes = Ret b -> writes_only bytes buffer b.
Proof.
  intros Hb Hc i Hne. pose proof (copy_from_slice_changed _ _ _ _ _ Hb Hc Hne) as Hi.
  unfold copy_from_slice in Hc.
  destruct (Z.leb_spec 0 idx), (Z.leb_spec (idx + 4) (Z.of_nat (base.length buffer)));
    cbn [andb] in Hc; [injection Hc as <- | discriminate ..].
  rewrite lookup_app_r, lookup_app_l by (rewrite length_take; lia).
  rewrite length_take.
  destruct (lookup_lt_is_Some_2 bytes (i - Nat.min (Z.to_nat idx) (base.length buffer)))
    as [x Hx]; [lia |].
  exists x. split; [done | by eapply list_elem_of_lookup_2].
Qed.

Lemma write_pixels_writes buffer idxs b :
  write_pixels buffer idxs = Ret b -> writes_only FOOD_PIXEL buffer b.
Proof.
  revert buffer. induction idxs as [|idx idxs IH]; intros buffer; simpl; [intros [= ->]; auto with snake |].
  destruct (copy_from_slice buffer idx FOOD_PIXEL) as [mid | |] eqn:Hc; cbn [mbind outcome_bind];
    [| discriminate ..].
  intros Hw. eapply writes_only_trans; [| by apply IH].
  by apply (copy_from_slice_writes _ idx).
Qed.

Lemma draw_food_writes buffer p b :
  draw_food buffer p = Ret b -> writes_only FOOD_PIXEL buffer b.
Proof. destruct p. apply write_pixels_writes. Qed.

Lemma plot_mem_writes mem e mem' :
  plot_mem mem e = Ret mem' ->
  writes_only [char_byte (plot_char e); color_code (plot_color e).1 (plot_color e).2] mem mem'.
Proof.
  unfold plot_mem. case_bool_decide; [intros [= <-] | discriminate].
  eapply writes_only_trans; apply insert_writes_only; set_solver.
Qed.

(** A plot of [draw_snake]. *)
Definition snake_plot (e : plot_event) : Prop :=
  plot_char e = "*"%char /\ plot_color e = (COLOR_SNAKE, COLOR_BACKGROUND).

Lemma draw_snake_plots st : Forall snake_plot (draw_snake st).
Proof.
  unfold draw_snake. apply Forall_map, Forall_forall. intros [r c] _. split; reflexivity.
Qed.

Lemma plot_all_mem_writes mem pl mem' :
  Forall snake_plot pl -> plot_all_mem mem pl = Ret mem' ->
  writes_only [char_byte "*"; color_code COLOR_SNAKE COLOR_BACKGROUND] mem mem'.
Proof.
  revert mem. induction pl as [|e pl IH]; intros mem Hs; simpl; [intros [= ->]; auto with snake |].
  apply Forall_cons in Hs as [[Hc Hcol] Hs].
  destruct (plot_mem mem e) as [mid | |] eqn:Hp; cbn [mbind outcome_bind]; [| discriminate ..].
  intros Hr. eapply writes_only_trans; [| by apply IH].
  apply plot_mem_writes in Hp. rewrite Hc, Hcol in Hp. exact Hp.
Qed.

(** * What the snake's plots leave on the screen *)

(** The cell of [p] holds a light-green ['*']. *)
Definition shows_star (mem : list Z) (p : pos) : Prop :=
  mem !! Z.to_nat (2 * plot_cell p) = Some (char_byte "*") /\
  mem !! Z.to_nat (2 * plot_cell p + 1) = Some (color_code COLOR_SNAKE COLOR_BACKGROUND).

Lemma plot_cell_bounds p : in_grid p -> 0 <= plot_cell p < ROWS * COLS.
Proof. unfold in_grid, plot_cell, ROWS, COLS. lia. Qed.

(** A plot of the snake on the screen draws its cell and keeps every
    other cell that already shows the snake. *)
Lemma plot_mem_star mem e :
  snake_plot e -> in_grid (plot_row e, plot_col e) -> TEXT_BYTES <= Z.of_nat (base.length mem) ->
  exists mem', plot_mem mem e = Ret mem' /\ base.length mem' = base.length mem /\
    shows_star mem' (plot_row e, plot_col e) /\
    forall p, in_grid p -> shows_star mem p -> shows_star mem' p.
Proof.
  intros [Hc Hcol] Hg Hlen. unfold plot_mem, shows_star. rewrite bool_decide_true by exact Hg.
  rewrite Hc, Hcol. cbn [fst snd].
  pose proof (plot_cell_bounds _ Hg) as Hk. unfold TEXT_BYTES, ROWS, COLS in *.
  eexists. split; [reflexivity |]. rewrite !length_insert. split; [done |].
  set (k := plot_cell (plot_row e, plot_col e)) in *.
  split.
  - split.
    + rewrite list_lookup_insert_ne, list_lookup_insert_eq by lia. done.
    + rewrite list_lookup_insert_eq; [done | rewrite length_insert; lia].
  - intros p Hp [H1 H2]. pose proof (plot_cell_bounds _ Hp) as Hk'. unfold ROWS, COLS in *.
    destruct (decide (plot_cell p = k)) as [Heq | Hne].
    + rewrite Heq. split.
      * rewrite list_lookup_insert_ne, list_lookup_insert_eq by lia. done.
      * rewrite list_lookup_insert_eq; [done | rewrite length_insert; lia].
    + split; rewrite !list_lookup_insert_ne by lia; assumption.
Qed.

Lemma plot_all_mem_star mem pl :
  Forall snake_plot pl -> Forall (fun e => in_grid (plot_row e, plot_col e)) pl ->
  TEXT_BYTES <= Z.of_nat (base.length mem) ->
  exists mem', plot_all_mem mem pl = Ret mem' /\ base.length mem' = base.length mem /\
    Forall (fun e => shows_star mem' (plot_row e, plot_col e)) pl /\
    forall p, in_grid p -> shows_star mem p -> shows_star mem' p.
Proof.
  revert mem. induction pl as [|e pl IH]; intros mem Hs Hg Hlen; simpl.
  - eexists. split; [done |]. split; [done |]. split; [constructor | auto].
  - apply Forall_cons in Hs as [He Hs]. apply Forall_cons in Hg as [Hge Hg].
    destruct (plot_mem_star mem e He Hge Hlen) as (mid & -> & Hl & Hstar & Hkeep).
    cbn [mbind outcome_bind].
    destruct (IH mid Hs Hg ltac:(lia)) as (mem' & -> & Hl' & Hall & Hkeep').
    exists mem'. split; [done |]. split; [lia |]. split; [constructor; auto |].
    auto.
Qed.

(** A plot changes only the two bytes of its cell. *)
Lemma plot_mem_other mem e mem' i :
  plot_mem mem e = Ret mem' ->
  i <> Z.to_nat (2 * plot_cell (plot_row e, plot_col e)) ->
  i <> Z.to_nat (2 * plot_cell (plot_row e, plot_col e) + 1) ->
  mem' !! i = mem !! i.
Proof.
  unfold plot_mem. case_bool_decide; [intros [= <-] | discriminate].
  intros H1 H2. by rewrite !list_lookup_insert_ne by done.
Qed.

Lemma plot_all_mem_other mem pl mem' i :
  plot_all_mem mem pl = Ret mem' ->
  Forall (fun e => i <> Z.to_nat (2 * plot_cell (plot_row e, plot_col e)) /\
                   i <> Z.to_nat (2 * plot_cell (plot_row e, plot_col e) + 1)) pl ->
  mem' !! i = mem !! i.
Proof.
  revert mem. induction pl as [|e pl IH]; intros mem; simpl; [by intros [= ->] |].
  destruct (plot_mem mem e) as [mid | |] eqn:Hp; cbn [mbind outcome_bind]; [| discriminate ..].
  intros Hr [[H1 H2] Hs]%Forall_cons. rewrite (IH mid Hr Hs). by apply (plot_mem_other _ e).
Qed.

Lemma writes_only_Forall (P : Z -> Prop) V m m' :
  writes_only V m m' -> base.length m' = base.length m -> Forall P m -> Forall P V -> Forall P m'.
Proof.
  intros Hw Hl Hm HV. apply Forall_lookup. intros i x Hx.
  destruct (decide (m' !! i = m !! i)) as [Heq | Hne].
  - rewrite Heq in Hx. exact (Forall_lookup_1 _ _ _ _ Hm Hx).
  - destruct (Hw i Hne) as (y & Hy & Hin). rewrite Hx in Hy. injection Hy as ->.
    by eapply Forall_forall.
Qed.

(** An iteration over the shared memory: the food block, then the plots
    of the game the drain leaves unchanged. *)
Lemma loop_body_shared_eq ks :
  loop_body_shared ks =
    (b ← draw_food (buffer ks) (food (kernel ks));
     mem ← plot_all_mem b (draw_snake (kernel ks));
     Ret (KernelState (kernel ks) None mem)).
Proof.
  destruct ks as [st [k |] buf]; unfold loop_body_shared, loop_body; cbn [kernel last_key buffer];
    rewrite ?key_noop; destruct (draw_food buf (food st)); reflexivity.
Qed.

(** The cells [draw_snake] plots in [st]. *)
Lemma draw_snake_cells st :
  Forall in_grid (active st) ->
  Forall (fun e => in_grid (plot_row e, plot_col e)) (draw_snake st) /\
  (forall p, p ∈ active st -> exists e, e ∈ draw_snake st /\ (plot_row e, plot_col e) = p).
Proof.
  intros Hg. unfold draw_snake. fold (active st). split.
  - apply Forall_map. eapply Forall_impl; [exact Hg |]. by intros [r c].
  - intros [r c] Hp. exists (Plot "*" c r (COLOR_SNAKE, COLOR_BACKGROUND)).
    split; [| done]. apply list_elem_of_fmap. by exists (r, c).
Qed.

(** The food block and the snake's plots both run, keep the memory's
    size, and leave every active segment showing the snake. *)
Lemma frame_runs st buf :
  base.length buf = Z.to_nat SCREEN_SIZE -> Forall in_grid (active st) -> in_grid (food st) ->
  ~ last_row_corner (food st) ->
  exists b mem, draw_food buf (food st) = Ret b /\ plot_all_mem b (draw_snake st) = Ret mem /\
    base.length mem = base.length buf /\ Forall (shows_star mem) (active st).
Proof.
  intros Hlen Hact Hfood Hcorner.
  destruct (draw_food_cases buf (food st) Hlen Hfood) as [[_ (b & Hb & Hbl)] | [Hc _]]; [| done].
  destruct (draw_snake_cells st Hact) as [Hgrid Hcells].
  destruct (plot_all_mem_star b (draw_snake st) (draw_snake_plots st) Hgrid)
    as (mem & Hmem & Hml & Hstar & _).
  { rewrite Hbl, Hlen. unfold TEXT_BYTES, SCREEN_SIZE, ROWS, COLS, BLOCK_SIZE. lia. }
  exists b, mem. split; [done |]. split; [done |]. split; [lia |].
  apply Forall_forall. intros p Hp. destruct (Hcells p Hp) as (e & He & <-).
  by eapply (Forall_forall (fun e => shows_star mem (plot_row e, plot_col e))).
Qed.

(** The bytes a frame can write. *)
Definition FRAME_BYTES : list Z :=
  FOOD_PIXEL ++ [char_byte "*"; color_code COLOR_SNAKE COLOR_BACKGROUND].

Lemma frame_writes st buf b mem :
  draw_food buf (food st) = Ret b -> plot_all_mem b (draw_snake st) = Ret mem ->
  writes_only FRAME_BYTES buf mem.
Proof.
  intros Hb Hmem. unfold FRAME_BYTES. eapply writes_only_trans.
  - eapply writes_only_weaken, draw_food_writes, Hb. set_solver.
  - eapply writes_only_weaken, plot_all_mem_writes; [| apply draw_snake_plots | exact Hmem].
    set_solver.
Qed.

(** The two bytes of the food's cell survive a frame when no active
    segment is on the food and the food is not at [(0, 0)]. *)
Lemma frame_food_cell st buf b mem j :
  Forall in_grid (active st) -> in_grid (food st) ->
  food st ∉ active st -> food st <> (0, 0) ->
  draw_food buf (food st) = Ret b -> plot_all_mem b (draw_snake st) = Ret mem -> (j < 2)%nat ->
  mem !! (Z.to_nat (2 * plot_cell (food st)) + j)%nat = buf !! (Z.to_nat (2 * plot_cell (food st)) + j)%nat.
Proof.
  intros Hact Hfood Hnot H00 Hb Hmem Hj.
  rewrite (plot_all_mem_other b (draw_snake st) mem _ Hmem).
  - destruct (decide (b !! (Z.to_nat (2 * plot_cell (food st)) + j)%nat =
                      buf !! (Z.to_nat (2 * plot_cell (food st)) + j)%nat)) as [| Hne]; [done |].
    pose proof (draw_food_changed _ _ _ _ Hb Hne) as Hi.
    destruct (food st) as [r c] eqn:Ef. unfold in_grid, plot_cell, ROWS, COLS in *.
    cbn [fst snd] in *. exfalso. apply H00. f_equal; lia.
  - unfold draw_snake. fold (active st). apply Forall_map, Forall_forall.
    intros [r c] Hrc. cbn [plot_row plot_col].
    assert ((r, c) <> food st) by (intros Heq; apply Hnot; by rewrite <- Heq).
    assert (in_grid (r, c)) as Hrcg by (eapply Forall_forall; [exact Hact | exact Hrc]).
    destruct (food st) as [fr fc]. unfold in_grid, plot_cell, ROWS, COLS in *. cbn [fst snd] in *.
    assert (r * 80 + c <> fr * 80 + fc) by (intros ?; assert (r = fr /\ c = fc) as [-> ->] by lia; done).
    split; lia.
Qed.

(** C7: one iteration of the loop, with [plot] writing the memory the
    buffer points to.  The food block is written first and the snake's
    plots after it, so every active segment's cell shows a light-green
    ['*'] even where the food block fell; no byte changes to anything but
    a byte of [FOOD_PIXEL], ['*'] or the snake's colour code; and the two
    bytes of the food's own cell are left as they were, unless the food is
    on an active segment or at [(0, 0)]: the food is not drawn in its
    cell. *)
Theorem shared_frame ks :
  base.length (buffer ks) = Z.to_nat SCREEN_SIZE ->
  Forall in_grid (active (kernel ks)) -> in_grid (food (kernel ks)) ->
  ~ last_row_corner (food (kernel ks)) ->
  exists ks', loop_body_shared ks = Ret ks' /\ kernel ks' = kernel ks /\
    Forall (shows_star (buffer ks')) (active (kernel ks)) /\
    writes_only FRAME_BYTES (buffer ks) (buffer ks') /\
    (food (kernel ks) ∉ active (kernel ks) -> food (kernel ks) <> (0, 0) ->
     forall j, (j < 2)%nat ->
     buffer ks' !! (Z.to_nat (2 * plot_cell (food (kernel ks))) + j)%nat =
     buffer ks !! (Z.to_nat (2 * plot_cell (food (kernel ks))) + j)%nat).
Proof.
  intros Hlen Hact Hfood Hcorner. rewrite loop_body_shared_eq.
  destruct (frame_runs (kernel ks) (buffer ks) Hlen Hact Hfood Hcorner)
    as (b & mem & Hb & Hmem & _ & Hstar).
  rewrite Hb. cbn [mbind outcome_bind]. rewrite Hmem. cbn [mbind outcome_bind].
  eexists. split; [reflexivity |]. cbn [kernel buffer].
  split; [done |]. split; [done |]. split; [by eapply frame_writes |].
  intros. by eapply frame_food_cell.
Qed.

(** * The error path of [draw_snake] *)

(** The plots all return when every cell is on the screen; the first
    cell off the screen makes the library's array index panic. *)
Lemma plot_all_mem_cases mem pl :
  (Forall (fun e => in_grid (plot_row e, plot_col e)) pl /\
   exists mem', plot_all_mem mem pl = Ret mem') \/
  (~ Forall (fun e => in_grid (plot_row e, plot_col e)) pl /\
   plot_all_mem mem pl = Panic "index out of bounds").
Proof.
  revert mem. induction pl as [|e pl IH]; intros mem; simpl; [left; eauto |].
  unfold plot_mem. case_bool_decide as Hg; cbn [mbind outcome_bind].
  - destruct (IH (<[Z.to_nat (2 * plot_cell (plot_row e, plot_col e) + 1) :=
                    color_code (plot_color e).1 (plot_color e).2]>
                   (<[Z.to_nat (2 * plot_cell (plot_row e, plot_col e)) :=
                      char_byte (plot_char e)]> mem)))
      as [[Hall Hok] | [Hnot Hp]]; [left | right].
    + split; [by constructor | exact Hok].
    + split; [| exact Hp]. by intros [_ ?]%Forall_cons.
  - right. split; [| done]. by intros [? _]%Forall_cons.
Qed.

Lemma draw_snake_in_grid st :
  Forall (fun e => in_grid (plot_row e, plot_col e)) (draw_snake st) <-> Forall in_grid (active st).
Proof.
  unfold draw_snake. fold (active st). rewrite Forall_map.
  apply Forall_iff. by intros [r c].
Qed.

(** * From [start], forever *)

Lemma active_boot : active boot_state = (12, 40) :: replicate 9 (0, 0).
Proof. vm_compute. reflexivity. Qed.

(** The boot game as a frame sees it: its segments on the screen, the
    food [(1, 1)] in the grid, off the segments and off the last-row
    corner. *)
Lemma boot_frame_facts :
  Forall in_grid (active boot_state) /\ in_grid (food boot_state) /\
  ~ last_row_corner (food boot_state) /\ (food boot_state ∉ active boot_state) /\
  food boot_state <> (0, 0).
Proof. rewrite active_boot. repeat split; concrete. Qed.

Lemma frame_bytes_not_food : Forall (fun x => x <> color_code COLOR_FOOD COLOR_BACKGROUND) FRAME_BYTES.
Proof. repeat constructor; concrete. Qed.

(** The frame invariant: the boot game, the buffer's size, no byte with
    the food's colour, and a blank food cell. *)
Definition frame_inv (ks : kernel_state) : Prop :=
  kernel ks = boot_state /\ base.length (buffer ks) = Z.to_nat SCREEN_SIZE /\
  Forall (fun x => x <> color_code COLOR_FOOD COLOR_BACKGROUND) (buffer ks) /\
  forall j, (j < 2)%nat -> buffer ks !! (Z.to_nat (2 * plot_cell (food boot_state)) + j)%nat = Some 0.

Lemma frame_inv_step ks :
  frame_inv ks ->
  exists ks', loop_body_shared ks = Ret ks' /\ frame_inv ks' /\
    Forall (shows_star (buffer ks')) (active boot_state).
Proof.
  intros (Hk & Hlen & Hnf & Hcell). rewrite loop_body_shared_eq, Hk.
  destruct boot_frame_facts as (Hact & Hfood & Hcorner & Hnot & H00).
  destruct (frame_runs boot_state (buffer ks) Hlen Hact Hfood Hcorner)
    as (b & mem & Hb & Hmem & Hml & Hstar).
  rewrite Hb. cbn [mbind outcome_bind]. rewrite Hmem. cbn [mbind outcome_bind].
  eexists. split; [reflexivity |]. unfold frame_inv. cbn [kernel buffer]. split; [| done].
  split; [done |]. split; [lia |]. split.
  - eapply writes_only_Forall; [by eapply frame_writes | done | done | apply frame_bytes_not_food].
  - intros j Hj. rewrite (frame_food_cell boot_state (buffer ks) b mem j); auto.
Qed.

Lemma frames_inv n ks :
  frame_inv ks ->
  exists ks', frames n ks = Ret ks' /\ frame_inv ks' /\
    (n <> 0%nat -> Forall (shows_star (buffer ks')) (active boot_state)).
Proof.
  revert ks. induction n as [|n IH]; intros ks Hinv; [exists ks; split; [done | by split] |].
  destruct (frame_inv_step ks Hinv) as (ks1 & Hstep & Hinv1 & Hstar1).
  destruct (IH ks1 Hinv1) as (ks' & Hrun & Hinv' & Hstar').
  exists ks'. simpl. rewrite Hstep. cbn [mbind outcome_bind]. rewrite Hrun.
  split; [done |]. split; [done |]. intros _.
  destruct n; [by injection Hrun as <- | by apply Hstar'].
Qed.

Lemma frame_inv_start ks : start = Ret ks -> frame_inv ks.
Proof.
  intros (Hk & _ & Hlen & Hz)%start_shape. split; [done |]. split; [done |].
  rewrite Hz. split; [apply Forall_replicate; concrete |].
  intros j Hj. apply lookup_replicate. split; [done |].
  unfold plot_cell, SCREEN_SIZE, ROWS, COLS, BLOCK_SIZE. simpl. lia.
Qed.

(** C8: the food is never on the screen.  From [start], after any number
    [n] of iterations of the loop, with [plot] writing the memory the
    buffer points to: the game is still the boot state, no byte of the
    memory is the colour code of [COLOR_FOOD] on [COLOR_BACKGROUND]
    (the code never uses [COLOR_FOOD]), the two bytes of the food's cell
    [(1, 1)] are still 0, a blank cell, and from the first iteration on
    every active segment shows a light-green ['*']. *)
Theorem screen_never_shows_food n :
  exists ks, (ks0 ← start; frames n ks0) = Ret ks /\ kernel ks = boot_state /\
    Forall (fun x => x <> color_code COLOR_FOOD COLOR_BACKGROUND) (buffer ks) /\
    (forall j, (j < 2)%nat -> buffer ks !! (Z.to_nat (2 * plot_cell (food boot_state)) + j)%nat = Some 0) /\
    (n <> 0%nat -> Forall (shows_star (buffer ks)) (active boot_state)).
Proof.
  destruct start as [ks0 | msg |] eqn:Hs; [| by rewrite start_eq in Hs | by rewrite start_eq in Hs].
  destruct (frames_inv n ks0 (frame_inv_start ks0 Hs)) as (ks & Hrun & (Hk & _ & Hnf & Hcell) & Hstar).
  exists ks. cbn [mbind outcome_bind]. auto.
Qed.

(** The first frame of the boot game on the zeroed buffer. *)
Lemma shared_frame_witness :
  exists ks', loop_body_shared (KernelState boot_state None (replicate (Z.to_nat SCREEN_SIZE) 0)) = Ret ks' /\
    kernel ks' = boot_state /\ Forall (shows_star (buffer ks')) (active boot_state).
Proof.
  destruct boot_frame_facts as (Hact & Hfood & Hcorner & _ & _).
  destruct (shared_frame (KernelState boot_state None (replicate (Z.to_nat SCREEN_SIZE) 0))
              (length_replicate _ _) Hact Hfood Hcorner) as (ks' & H1 & H2 & H3 & _).
  exists ks'. auto.
Defined.

(** C23: the only error path of [draw_snake] is the array index of the
    library's [plot]: over any memory, the plots panic with the index
    message exactly when an active segment is off the 80 x 25 screen, and
    return otherwise.  A head that left the grid is caught by [update]'s
    wall test first, so no reachable state takes this path. *)
Theorem draw_snake_plot_panics st mem :
  (plot_all_mem mem (draw_snake st) = Panic "index out of bounds" <-> ~ Forall in_grid (active st)) /\
  (Forall in_grid (active st) -> exists mem', plot_all_mem mem (draw_snake st) = Ret mem').
Proof.
  rewrite <- draw_snake_in_grid.
  destruct (plot_all_mem_cases mem (draw_snake st)) as [[Hall (mem' & ->)] | [Hnot ->]].
  - split; [split; [discriminate | done] | eauto].
  - split; [done | done].
Qed.

(** A head one block below the grid: the plots of [draw_snake] panic. *)
Lemma draw_snake_plot_panics_witness :
  plot_all_mem [] (draw_snake (shifted new (26, 40))) = Panic "index out of bounds".
Proof.
  apply (proj2 (proj1 (draw_snake_plot_panics (shifted new (26, 40)) []))). concrete.
Defined.
